(** * TeamMapper maps service: a shallow embedding and its checked properties

    The development follows [MapsService] of the TeamMapper backend
    (the service class with [findMap], [addNode], [addNodes], [updateMap],
    [getDeletedAt], [calculcateDeletedAt], [deleteOutdatedMaps], ...).

    Layout:
    - [JSDate]: the ECMAScript Date arithmetic that [calculcateDeletedAt]
      relies on ([getDate], [setDate], [MakeDay], [TimeClip], ...), over a heap
      of mutable Date objects;
    - [Repo]: the two tables (maps, nodes) with the repository calls the
      service issues, each one recorded in a trace of storage accesses;
    - [Service]: the service methods, in a state-and-rejection monad that
      plays the role of [Promise]; what the service takes from other files
      (UUID validation, configuration, client/server mapping, the host's
      time zone) is the class [Collaborators];
    - [Spec]: the predicates in which the properties are stated;
    - [Sample]: a concrete deployment and a few stored worlds;
    - the facts, module by module, and [Runs]: the service run on the
      sample worlds. *)

From Stdlib Require Import ZArith List String Ascii Bool Lia.
From Stdlib Require Import Sorting.Sorted Sorting.Permutation.
Import ListNotations.
Open Scope Z_scope.

(* ================================================================= *)
(** ** ECMAScript Date arithmetic *)

Module JSDate.

(** A time value: milliseconds since the epoch, or [None] for NaN
    (an Invalid Date). *)
Definition TimeValue := option Z.

Definition msPerDay : Z := 86400000.
Definition maxTime : Z := 8640000000000000.

Definition Day (t : Z) : Z := t / msPerDay.
Definition TimeWithinDay (t : Z) : Z := t mod msPerDay.

Definition DaysInYear (y : Z) : Z :=
  if negb (y mod 4 =? 0) then 365
  else if negb (y mod 100 =? 0) then 366
  else if negb (y mod 400 =? 0) then 365
  else 366.

Definition DayFromYear (y : Z) : Z :=
  365 * (y - 1970) + (y - 1969) / 4 - (y - 1901) / 100 + (y - 1601) / 400.

Definition TimeFromYear (y : Z) : Z := msPerDay * DayFromYear y.

(** The largest [y] with [TimeFromYear y <= t]: an estimate from the mean
    length of a Gregorian year, corrected by at most one year either way
    (see [YearFromTime_spec]). *)
Definition YearFromTime (t : Z) : Z :=
  let d := Day t in
  let y := 1970 + (400 * d) / 146097 in
  if d <? DayFromYear y then y - 1
  else if DayFromYear (y + 1) <=? d then y + 1
  else y.

Definition InLeapYear (t : Z) : Z :=
  if DaysInYear (YearFromTime t) =? 366 then 1 else 0.

Definition DayWithinYear (t : Z) : Z := Day t - DayFromYear (YearFromTime t).

Definition MonthFromTime (t : Z) : Z :=
  let d := DayWithinYear t in
  let l := InLeapYear t in
  if d <? 31 then 0
  else if d <? 59 + l then 1
  else if d <? 90 + l then 2
  else if d <? 120 + l then 3
  else if d <? 151 + l then 4
  else if d <? 181 + l then 5
  else if d <? 212 + l then 6
  else if d <? 243 + l then 7
  else if d <? 273 + l then 8
  else if d <? 304 + l then 9
  else if d <? 334 + l then 10
  else 11.

Definition DateFromTime (t : Z) : Z :=
  let d := DayWithinYear t in
  let l := InLeapYear t in
  match MonthFromTime t with
  | 0 => d + 1
  | 1 => d - 30
  | 2 => d - 58 - l
  | 3 => d - 89 - l
  | 4 => d - 119 - l
  | 5 => d - 150 - l
  | 6 => d - 180 - l
  | 7 => d - 211 - l
  | 8 => d - 242 - l
  | 9 => d - 272 - l
  | 10 => d - 303 - l
  | _ => d - 333 - l
  end.

(** Day of the year on which month [mn] (0..11) starts, in a year with
    [l] leap days. *)
Definition MonthStart (mn l : Z) : Z :=
  match mn with
  | 0 => 0
  | 1 => 31
  | 2 => 59 + l
  | 3 => 90 + l
  | 4 => 120 + l
  | 5 => 151 + l
  | 6 => 181 + l
  | 7 => 212 + l
  | 8 => 243 + l
  | 9 => 273 + l
  | 10 => 304 + l
  | _ => 334 + l
  end.

(** [MakeDay year month date]: the day number of the first of month
    [month] of [year] (months beyond 0..11 carry into the year), plus
    [date - 1].  The time with that year, that month and date 1, which the
    standard asks for, is written out (see [MakeDay_first_of_month]). *)
Definition MakeDay (year month date : Z) : Z :=
  let ym := year + month / 12 in
  let mn := month mod 12 in
  let l := if DaysInYear ym =? 366 then 1 else 0 in
  DayFromYear ym + MonthStart mn l + date - 1.

Definition MakeDate (day time : Z) : Z := day * msPerDay + time.

Definition TimeClip (t : Z) : TimeValue :=
  if maxTime <? Z.abs t then None else Some t.

Section LocalZone.

(** The local time zone adjustment of the process: [LocalTZA t true] for a
    UTC time [t], [LocalTZA t false] for a local time [t]. *)
Variable LocalTZA : Z -> bool -> Z.

Definition LocalTime (t : Z) : Z := t + LocalTZA t true.
Definition UTC (t : Z) : Z := t - LocalTZA t false.

(** *** Date objects

    A Date object is a mutable cell holding a time value; the heap is the
    list of the cells allocated so far and a reference is an index in it. *)
Definition DateRef := nat.
Definition DateHeap := list TimeValue.

Definition thisTimeValue (h : DateHeap) (r : DateRef) : TimeValue :=
  nth r h None.

Fixpoint setDateValue (h : DateHeap) (r : DateRef) (v : TimeValue) : DateHeap :=
  match h, r with
  | [], _ => []
  | _ :: h', O => v :: h'
  | x :: h', S r' => x :: setDateValue h' r' v
  end.

(** [new Date(value)] for a number [value]. *)
Definition newDate (value : TimeValue) (h : DateHeap) : DateHeap * DateRef :=
  let tv := match value with Some t => TimeClip t | None => None end in
  (h ++ [tv], List.length h).

(** [d.getTime()] *)
Definition getTime (h : DateHeap) (r : DateRef) : TimeValue := thisTimeValue h r.

(** [d.getDate()] *)
Definition getDate (h : DateHeap) (r : DateRef) : TimeValue :=
  match thisTimeValue h r with
  | None => None
  | Some t => Some (DateFromTime (LocalTime t))
  end.

(** [d.setDate(date)] *)
Definition setDate (r : DateRef) (date : TimeValue) (h : DateHeap) : DateHeap :=
  match thisTimeValue h r with
  | None => h
  | Some t0 =>
      let t := LocalTime t0 in
      let u :=
        match date with
        | None => None
        | Some dt =>
            let newDate := MakeDate (MakeDay (YearFromTime t) (MonthFromTime t) dt)
                                    (TimeWithinDay t) in
            TimeClip (UTC newDate)
        end in
      setDateValue h r u
  end.

(** Number addition, NaN absorbing. *)
Definition num_add (a : TimeValue) (b : Z) : TimeValue :=
  match a with Some x => Some (x + b) | None => None end.

End LocalZone.

End JSDate.

(* ================================================================= *)
(** ** Entities and client shapes *)

(** [CachedMapOptions] / the map's [options] column. *)
Record CachedMapOptions := {
  fontMaxSize : Z;
  fontMinSize : Z;
  fontIncrement : Z
}.

(** The entity declarations are not part of the service file; the rows
    carry the columns that the service reads or writes.

    A row of the maps table.  Timestamps are time values in milliseconds. *)
Module MmpMap.
Record t := {
  id : string;
  lastModified : Z;
  options : CachedMapOptions
}.
End MmpMap.

(** A row of the nodes table; the primary key is ([id], [nodeMapId]).
    [nodeParentId] is [None] for SQL NULL; [lastModified] and [orderNumber]
    are always set; [name] stands for the content columns. *)
Module MmpNode.
Record t := {
  id : string;
  nodeMapId : string;
  nodeParentId : option string;
  root : bool;
  detached : bool;
  orderNumber : Z;
  lastModified : Z;
  name : string
}.

(** [{ ...node, nodeMapId: mapId }] *)
Definition with_nodeMapId (node : t) (mapId : string) : t :=
  {| id := id node; nodeMapId := mapId; nodeParentId := nodeParentId node;
     root := root node; detached := detached node;
     orderNumber := orderNumber node; lastModified := lastModified node;
     name := name node |}.
End MmpNode.

(** [IMmpClientMap], over the client's node shape. *)
Record IMmpClientMap (ClientNode : Type) := {
  uuid : string;
  data : list ClientNode
}.
Arguments uuid {ClientNode} _.
Arguments data {ClientNode} _.

(** JavaScript truthiness of a string-valued argument: [None] is a missing
    (undefined or null) value, [Some EmptyString] the empty string. *)
Definition truthy (s : option string) : option string :=
  match s with
  | Some EmptyString => None
  | Some v => Some v
  | None => None
  end.

(** Template-literal rendering of a possibly missing string. *)
Definition render (missing : string) (s : option string) : string :=
  match s with Some v => v | None => missing end.

(* ================================================================= *)
(** ** Storage: tables, trace of accesses, and the promise monad *)

Module Repo.

(** What a promise is rejected with. *)
Inductive Rejection :=
| MalformedUUIDError (message : string)   (* new MalformedUUIDError('Invalid UUID') *)
| NoReason                                (* Promise.reject() *)
| TypeError                               (* property read on a missing object *)
| QueryFailedError.                       (* the database refuses a query *)

Inductive Settled (A : Type) :=
| Fulfilled (a : A)
| Rejected (e : Rejection).
Arguments Fulfilled {A} a.
Arguments Rejected {A} e.

(** One entry per call that reaches the storage backend. *)
Inductive Query :=
| MapFindOne (id : string)
| MapSelectOutdated (afterDays today : Z)
| MapDeleteIn (ids : list string)
| NodeFindOne (id mapId : string)
| NodeExist (id mapId : string)
| NodeSave (node : MmpNode.t)
| NodeDeleteByMap (mapId : string)
| NodeGetManyByMap (mapId : string)
| NodeMaxLastModified (mapId : string).

Record World := {
  maps : list MmpMap.t;
  nodes : list MmpNode.t;
  dates : JSDate.DateHeap;
  clock : Z;                    (* what [new Date()] reads *)
  warnings : list string;       (* logger.warn *)
  queries : list Query          (* storage accesses, oldest first *)
}.

Definition Promise (A : Type) : Type := World -> World * Settled A.

Definition resolve {A} (a : A) : Promise A := fun w => (w, Fulfilled a).
Definition reject {A} (e : Rejection) : Promise A := fun w => (w, Rejected e).

(** [await p] followed by the rest of an async function. *)
Definition bind {A B} (p : Promise A) (k : A -> Promise B) : Promise B :=
  fun w =>
    match p w with
    | (w', Fulfilled a) => k a w'
    | (w', Rejected e) => (w', Rejected e)
    end.

Definition with_nodes (w : World) (ns : list MmpNode.t) : World :=
  {| maps := maps w; nodes := ns; dates := dates w; clock := clock w;
     warnings := warnings w; queries := queries w |}.

Definition with_maps (w : World) (ms : list MmpMap.t) : World :=
  {| maps := ms; nodes := nodes w; dates := dates w; clock := clock w;
     warnings := warnings w; queries := queries w |}.

Definition with_dates (w : World) (h : JSDate.DateHeap) : World :=
  {| maps := maps w; nodes := nodes w; dates := h; clock := clock w;
     warnings := warnings w; queries := queries w |}.

Definition record (q : Query) (w : World) : World :=
  {| maps := maps w; nodes := nodes w; dates := dates w; clock := clock w;
     warnings := warnings w; queries := queries w ++ [q] |}.

(** [logger.warn(message)] *)
Definition warn (message : string) : Promise unit :=
  fun w =>
    ({| maps := maps w; nodes := nodes w; dates := dates w; clock := clock w;
        warnings := warnings w ++ [message]; queries := queries w |},
     Fulfilled tt).

(** *** Row predicates of the [where] clauses *)

Definition map_has_id (id : string) (m : MmpMap.t) : bool :=
  String.eqb (MmpMap.id m) id.

Definition node_in_map (mapId : string) (n : MmpNode.t) : bool :=
  String.eqb (MmpNode.nodeMapId n) mapId.

Definition node_has_key (id mapId : string) (n : MmpNode.t) : bool :=
  String.eqb (MmpNode.id n) id && String.eqb (MmpNode.nodeMapId n) mapId.

(** *** Maps repository *)

(** [mapsRepository.findOne({ where: { id } })] *)
Definition maps_findOne (id : string) : Promise (option MmpMap.t) :=
  fun w => (record (MapFindOne id) w, Fulfilled (find (map_has_id id) (maps w))).

(** *** Nodes repository *)

(** [nodesRepository.findOne({ where: { id, nodeMapId } })] *)
Definition nodes_findOne (id mapId : string) : Promise (option MmpNode.t) :=
  fun w =>
    (record (NodeFindOne id mapId) w,
     Fulfilled (find (node_has_key id mapId) (nodes w))).

(** [nodesRepository.exist({ where: { id, nodeMapId } })] *)
Definition nodes_exist (id mapId : string) : Promise bool :=
  fun w =>
    (record (NodeExist id mapId) w,
     Fulfilled (existsb (node_has_key id mapId) (nodes w))).

(** Replace the row with the primary key of [n], or append [n]. *)
Fixpoint upsert (n : MmpNode.t) (rows : list MmpNode.t) : list MmpNode.t :=
  match rows with
  | [] => [n]
  | r :: rows' =>
      if node_has_key (MmpNode.id n) (MmpNode.nodeMapId n) r then n :: rows'
      else r :: upsert n rows'
  end.

(** [nodesRepository.save(node)]: insert or update by primary key; the
    saved entity is returned. *)
Definition nodes_save (n : MmpNode.t) : Promise MmpNode.t :=
  fun w => (record (NodeSave n) (with_nodes w (upsert n (nodes w))), Fulfilled n).

(** [nodesRepository.delete({ nodeMapId })] *)
Definition nodes_deleteByMap (mapId : string) : Promise unit :=
  fun w =>
    (record (NodeDeleteByMap mapId)
       (with_nodes w (filter (fun n => negb (node_in_map mapId n)) (nodes w))),
     Fulfilled tt).

(** [ORDER BY orderNumber ASC], as a stable insertion sort. *)
Fixpoint insert_by_orderNumber (n : MmpNode.t) (l : list MmpNode.t) : list MmpNode.t :=
  match l with
  | [] => [n]
  | x :: l' =>
      if MmpNode.orderNumber n <? MmpNode.orderNumber x then n :: l
      else x :: insert_by_orderNumber n l'
  end.

Definition order_by_orderNumber (l : list MmpNode.t) : list MmpNode.t :=
  fold_right insert_by_orderNumber [] l.

(** [createQueryBuilder('mmpNode').where('mmpNode.nodeMapId = :mapId')
     .orderBy('mmpNode.orderNumber', 'ASC').getMany()] *)
Definition nodes_getManyByMap (mapId : string) : Promise (list MmpNode.t) :=
  fun w =>
    (record (NodeGetManyByMap mapId) w,
     Fulfilled (order_by_orderNumber (filter (node_in_map mapId) (nodes w)))).

(** SQL [max] over a column: NULL ([None]) on no rows. *)
Definition sql_max (l : list Z) : option Z :=
  fold_left (fun acc x =>
               match acc with
               | None => Some x
               | Some a => Some (Z.max a x)
               end) l None.

(** [createQueryBuilder('node').select('max(node.lastModified) AS lastModified')
     .where({ nodeMapId }).getRawOne()], read at ['lastmodified']. *)
Definition nodes_maxLastModified (mapId : string) : Promise (option Z) :=
  fun w =>
    (record (NodeMaxLastModified mapId) w,
     Fulfilled (sql_max (map MmpNode.lastModified
                           (filter (node_in_map mapId) (nodes w))))).

(** *** The outdated-maps query *)

(** Subquery [SELECT node.nodeMapId, max(node.lastModified) AS lastUpdatedAt
    FROM node GROUP BY node.nodeMapId]: one row per map that owns a node. *)
Fixpoint group_put (k : string) (v : Z) (groups : list (string * Z))
  : list (string * Z) :=
  match groups with
  | [] => [(k, v)]
  | (k', v') :: groups' =>
      if String.eqb k' k then (k', Z.max v' v) :: groups'
      else (k', v') :: group_put k v groups'
  end.

Definition lastmodifiednode (ns : list MmpNode.t) : list (string * Z) :=
  fold_left (fun groups n =>
               group_put (MmpNode.nodeMapId n) (MmpNode.lastModified n) groups)
            ns [].

(** [map LEFT JOIN lastmodifiednode ON lastmodifiednode.nodeMapid = map.id]:
    a map without a matching row is kept once, with NULL columns. *)
Definition left_join (ms : list MmpMap.t) (groups : list (string * Z))
  : list (MmpMap.t * option Z) :=
  flat_map
    (fun m =>
       match filter (fun g => String.eqb (fst g) (MmpMap.id m)) groups with
       | [] => [(m, None)]
       | rows => map (fun g => (m, Some (snd g))) rows
       end) ms.

(** The ranges that PostgreSQL checks.  The [day] field of an interval is a
    32-bit integer.  A timestamp lies between 24 November 4714 BC and the
    end of the year 294276; here both ends in milliseconds since the Unix
    epoch, the upper one excluded. *)
Definition pg_int32_min : Z := -2147483648.
Definition pg_int32_max : Z := 2147483647.
Definition pg_timestamp_min : Z := -210866803200000.
Definition pg_timestamp_end : Z := 9224318016000000.

(** [INTERVAL '1 day' * :afterDays]: the number of days of the product, or
    [None] when the database raises "interval out of range". *)
Definition interval_days (afterDays : Z) : option Z :=
  if (pg_int32_min <=? afterDays) && (afterDays <=? pg_int32_max)
  then Some afterDays else None.

(** [ts + interval], a day being 24 hours (a session time zone without
    daylight saving); [None] when the database raises "timestamp out of
    range". *)
Definition plus_days (ts days : Z) : option Z :=
  let sum := ts + JSDate.msPerDay * days in
  if (pg_timestamp_min <=? sum) && (sum <? pg_timestamp_end)
  then Some sum else None.

(** The [WHERE ... OR (...)] condition on a joined row; [None] when its
    evaluation raises.  With a newest node time the first comparison is
    evaluated, and [lastUpdatedAt IS NULL] is false; without one the first
    sum is NULL (nothing is added, a comparison with NULL is not true) and
    the second comparison, on the map's own time, is evaluated. *)
Definition outdated_row (days today : Z) (row : MmpMap.t * option Z) : option bool :=
  let (m, lastUpdatedAt) := row in
  match lastUpdatedAt with
  | Some ts =>
      match plus_days ts days with
      | Some sum => Some (sum <? today)
      | None => None
      end
  | None =>
      match plus_days (MmpMap.lastModified m) days with
      | Some sum => Some (sum <? today)
      | None => None
      end
  end.

(** The rows that a condition keeps, or [None] when its evaluation raises
    on some row. *)
Fixpoint select_rows {A : Type} (cond : A -> option bool) (rows : list A)
  : option (list A) :=
  match rows with
  | [] => Some []
  | row :: rest =>
      match cond row, select_rows cond rest with
      | Some true, Some kept => Some (row :: kept)
      | Some false, Some kept => Some kept
      | _, _ => None
      end
  end.

(** [deleteQuery.getRawMany()], each raw row read at ['map_id'].  The
    database rejects the query when the interval or a sum that it evaluates
    is out of range; the driver turns that into a [QueryFailedError]. *)
Definition maps_selectOutdated (afterDays today : Z) : Promise (list string) :=
  fun w =>
    (record (MapSelectOutdated afterDays today) w,
     match interval_days afterDays with
     | None => Rejected QueryFailedError
     | Some days =>
         match select_rows (outdated_row days today)
                 (left_join (maps w) (lastmodifiednode (nodes w))) with
         | None => Rejected QueryFailedError
         | Some rows => Fulfilled (map (fun row => MmpMap.id (fst row)) rows)
         end
     end).

Definition id_in (ids : list string) (id : string) : bool :=
  existsb (String.eqb id) ids.

(** Modelled from the spec: the cascade of a map's deletion to its nodes,
    which the entity declarations (not part of the service) set up:
    a Node is exclusively owned by its Map and deleting a Map cascades to
    its Nodes. *)
Definition cascade (ids : list string) (ns : list MmpNode.t) : list MmpNode.t :=
  filter (fun n => negb (id_in ids (MmpNode.nodeMapId n))) ns.

(** [createQueryBuilder().where('id IN (:...ids)').delete().execute()],
    read at [affected]: the number of rows deleted. *)
Definition maps_deleteIn (ids : list string) : Promise Z :=
  fun w =>
    let gone := filter (fun m => id_in ids (MmpMap.id m)) (maps w) in
    let kept := filter (fun m => negb (id_in ids (MmpMap.id m))) (maps w) in
    (record (MapDeleteIn ids)
       (with_nodes (with_maps w kept) (cascade ids (nodes w))),
     Fulfilled (Z.of_nat (List.length gone))).

End Repo.

(* ================================================================= *)
(** ** The service *)

(** What the service takes from its collaborators: the host's time zone,
    the UUID validator of the [uuid] package, the configured retention, and
    the client/server mapping functions. *)
Class Collaborators := {
  LocalTZA : Z -> bool -> Z;
  uuidValidate : string -> bool;
  deleteAfterDays : Z;                                (* configService.deleteAfterDays() *)
  IMmpClientNode : Type;
  mapClientNodeToMmpNode : IMmpClientNode -> option string -> MmpNode.t;
  mapMmpMapToClient :
    MmpMap.t -> list MmpNode.t -> JSDate.DateRef -> Z -> IMmpClientMap IMmpClientNode
}.

Module Service.
Import Repo.

Declare Scope promise_scope.
Delimit Scope promise_scope with promise.
Notation "x <- p ;; k" := (bind p (fun x => k))
  (at level 61, p at next level, right associativity) : promise_scope.
Notation "p ;;; k" := (bind p (fun _ => k))
  (at level 61, right associativity) : promise_scope.
Local Open Scope promise_scope.

Section Methods.
Context `{Collaborators}.

Definition findMap (uuid : string) : Promise (option MmpMap.t) :=
  if negb (uuidValidate uuid) then reject (MalformedUUIDError "Invalid UUID")
  else maps_findOne uuid.

Definition addNode (mapId : option string) (node : option MmpNode.t)
  : Promise MmpNode.t :=
  match node with
  | None => reject TypeError      (* [node.detached] on a missing node throws *)
  | Some node =>
      (* detached nodes are not allowed to have a parent *)
      if MmpNode.detached node
         && match truthy (MmpNode.nodeParentId node) with Some _ => true | None => false end
      then reject NoReason
      else
        (* [!mapId || !node]: the node is present here *)
        match truthy mapId with
        | None => reject NoReason
        | Some mapId =>
            existingNode <- nodes_findOne (MmpNode.id node) mapId ;;
            match existingNode with
            | Some existingNode => resolve existingNode
            | None =>
                let newNode := MmpNode.with_nodeMapId node mapId in
                nodes_save newNode
            end
        end
  end.

Definition existsNode (mapId parentId : option string) : Promise bool :=
  match truthy mapId, truthy parentId with
  | Some mapId, Some parentId => nodes_exist parentId mapId
  | _, _ => resolve false
  end.

Definition validatesNodeParentForNode (mapId : option string) (node : MmpNode.t)
  : Promise bool :=
  if MmpNode.root node then resolve true
  else if MmpNode.detached node then resolve true
  else
    match truthy (MmpNode.nodeParentId node) with
    | None => resolve false
    | Some _ => existsNode mapId (MmpNode.nodeParentId node)
    end.

(** The warning of [addNodes] for a node whose parent is missing. *)
Definition missing_parent_message (mapId : option string) (node : MmpNode.t) : string :=
  String.append "Parent with id "
    (String.append (render "null" (MmpNode.nodeParentId node))
       (String.append " does not exist for node "
          (String.append (MmpNode.id node)
             (String.append " and map " (render "undefined" mapId))))).

(** The reducer of [addNodes]. *)
Definition reducer (mapId : option string)
    (previousPromise : Promise (list MmpNode.t)) (node : MmpNode.t)
  : Promise (list MmpNode.t) :=
  accCreatedNodes <- previousPromise ;;
  valid <- validatesNodeParentForNode mapId node ;;
  if valid then
    created <- addNode mapId (Some node) ;;
    resolve (accCreatedNodes ++ [created])
  else
    warn (missing_parent_message mapId node) ;;;
    resolve accCreatedNodes.

Definition addNodes (mapId : option string) (nodes : list MmpNode.t)
  : Promise (list MmpNode.t) :=
  (* the guard builds a rejected promise and drops it *)
  let dropped : option (Promise (list MmpNode.t)) :=
    if match truthy mapId with None => true | Some _ => false end
       || (Nat.eqb (List.length nodes) 0)
    then Some (reject NoReason) else None in
  fold_left (reducer mapId) nodes (resolve []).

Definition addNodesFromClient (mapId : option string)
    (clientNodes : list IMmpClientNode) : Promise (list MmpNode.t) :=
  let mmpNodes := map (fun x => mapClientNodeToMmpNode x mapId) clientNodes in
  addNodes mapId mmpNodes.

Definition findNodes (mapId : string) : Promise (list MmpNode.t) :=
  nodes_getManyByMap mapId.

(** updates map nodes *)
Definition updateMap (clientMap : IMmpClientMap IMmpClientNode)
  : Promise (option MmpMap.t) :=
  (* remove existing nodes, otherwise we will end up with multiple roots *)
  nodes_deleteByMap (uuid clientMap) ;;;
  (* add new nodes from given map *)
  addNodesFromClient (Some (uuid clientMap)) (data clientMap) ;;;
  (* reload map *)
  findMap (uuid clientMap).

(** The synchronous date computation, on the heap of Date objects. *)
Definition calculcateDeletedAt (lastModified : JSDate.DateRef) (afterDays : Z)
    (h : JSDate.DateHeap) : JSDate.DateHeap * JSDate.DateRef :=
  (* dont modify original input as this might be used somewhere else *)
  let (h1, copyDate) := JSDate.newDate (JSDate.getTime h lastModified) h in
  let h2 := JSDate.setDate LocalTZA copyDate
              (JSDate.num_add (JSDate.getDate LocalTZA h1 copyDate) afterDays) h1 in
  (h2, copyDate).

(** Run a synchronous heap computation inside a promise. *)
Definition on_dates {A} (f : JSDate.DateHeap -> JSDate.DateHeap * A) : Promise A :=
  fun w => let (h, a) := f (dates w) in (with_dates w h, Fulfilled a).

Definition getDeletedAt (map : option MmpMap.t) (afterDays : Z)
  : Promise JSDate.DateRef :=
  match map with
  | None => reject NoReason
  | Some map =>
      (* get newest node of this map: *)
      newestNodeLastModified <- nodes_maxLastModified (MmpMap.id map) ;;
      let lastModified :=
        match newestNodeLastModified with
        | None => MmpMap.lastModified map
        | Some ts => ts
        end in
      date <- on_dates (JSDate.newDate (Some lastModified)) ;;
      on_dates (calculcateDeletedAt date afterDays)
  end.

Definition exportMapToClient (uuid : string)
  : Promise (IMmpClientMap IMmpClientNode) :=
  map <- findMap uuid ;;
  match map with
  | None => reject NoReason
  | Some map =>
      nodes <- findNodes (MmpMap.id map) ;;
      let days := deleteAfterDays in
      deletedAt <- getDeletedAt (Some map) days ;;
      resolve (mapMmpMapToClient map nodes deletedAt days)
  end.

(** [new Date()]: a new Date object holding the current time. *)
Definition newDateNow : Promise JSDate.DateRef :=
  fun w => (with_dates w (dates w ++ [Some (clock w)]),
            Fulfilled (List.length (dates w))).

(** A Date bound to a query parameter: its time value; an Invalid Date is
    no timestamp and the query fails. *)
Definition date_parameter (d : JSDate.DateRef) : Promise Z :=
  fun w =>
    match JSDate.getTime (dates w) d with
    | Some ts => (w, Fulfilled ts)
    | None => (w, Rejected QueryFailedError)
    end.

(** [afterDays] is [None] when the caller leaves it out (default 30).
    The result is the number of maps deleted. *)
Definition deleteOutdatedMaps (afterDays : option Z) : Promise Z :=
  let afterDays := match afterDays with Some d => d | None => 30 end in
  today <- newDateNow ;;
  today_ts <- date_parameter today ;;
  outdatedMapsIdsFlat <- maps_selectOutdated afterDays today_ts ;;
  if Nat.ltb 0 (List.length outdatedMapsIdsFlat) then
    maps_deleteIn outdatedMapsIdsFlat
  else
    (* no maps found to be deleted: *)
    resolve 0.

End Methods.
End Service.

(* ================================================================= *)
(** ** The vocabulary of the properties *)

Module Spec.
Import Repo Service.

(** Ascending display order. *)
Definition ascending (a b : MmpNode.t) : Prop :=
  MmpNode.orderNumber a <= MmpNode.orderNumber b.

(** The tables hold no node filed under an empty map identifier. *)
Definition filed_under_maps (w : World) : Prop :=
  forall n, In n (nodes w) -> MmpNode.nodeMapId n <> EmptyString.

(** [l1] is [l2] with some elements left out, the order kept. *)
Inductive subsequence {A : Type} : list A -> list A -> Prop :=
| subsequence_nil : subsequence [] []
| subsequence_skip x l1 l2 : subsequence l1 l2 -> subsequence l1 (x :: l2)
| subsequence_take x l1 l2 : subsequence l1 l2 -> subsequence (x :: l1) (x :: l2).

(** How many stored rows have the key ([id], [mapId]). *)
Definition rows_with_key (id mapId : string) (w : World) : nat :=
  List.length (filter (node_has_key id mapId) (nodes w)).

(** The ordered loop with an accumulator that the specification describes:
    validate the next node against the storage as it is now; insert it and
    extend the result, or warn and skip it; go on with the rest. *)
Fixpoint addNodesBatch (mapId : option string) (nodes : list MmpNode.t)
    (created : list MmpNode.t) : Promise (list MmpNode.t) :=
  match nodes with
  | [] => resolve created
  | node :: rest =>
      bind (validatesNodeParentForNode mapId node) (fun valid =>
        if valid then
          bind (addNode mapId (Some node)) (fun c =>
            addNodesBatch mapId rest (created ++ [c]))
        else
          bind (warn (missing_parent_message mapId node)) (fun _ =>
            addNodesBatch mapId rest created))
  end.

(** The nodes that a map owns. *)
Definition owned (w : World) (m : MmpMap.t) : list MmpNode.t :=
  filter (node_in_map (MmpMap.id m)) (nodes w).

(** [t] is the most recent modification time among the nodes [ns]. *)
Definition newest (t : Z) (ns : list MmpNode.t) : Prop :=
  In t (map MmpNode.lastModified ns)
  /\ forall n, In n ns -> MmpNode.lastModified n <= t.


(** The same, decided. *)
Definition outdated (afterDays today : Z) (w : World) (m : MmpMap.t) : bool :=
  match sql_max (map MmpNode.lastModified (owned w m)) with
  | Some t => t + afterDays * JSDate.msPerDay <? today
  | None => MmpMap.lastModified m + afterDays * JSDate.msPerDay <? today
  end.

(** The rows of the grouped subquery for map identifier [k]. *)
Definition group_of (k : string) (g : string * Z) : bool := String.eqb (fst g) k.

(** The time that [getDeletedAt] counts from: the newest node time, or the
    map's own when the aggregate is NULL. *)
Definition deadline_source (w : World) (m : MmpMap.t) : Z :=
  match sql_max (map MmpNode.lastModified (owned w m)) with
  | None => MmpMap.lastModified m
  | Some t => t
  end.

(** The time that the retention counts from, [afterDays] days later, is a
    timestamp of the database. *)
Definition deadline_in_range (afterDays : Z) (w : World) (m : MmpMap.t) : bool :=
  (pg_timestamp_min <=? deadline_source w m + afterDays * JSDate.msPerDay)
  && (deadline_source w m + afterDays * JSDate.msPerDay <? pg_timestamp_end).

(** The sweep stays within the ranges of the database: the number of days
    is an interval's, and every map's deadline is a timestamp. *)
Definition sweep_in_range (afterDays : Z) (w : World) : bool :=
  (pg_int32_min <=? afterDays) && (afterDays <=? pg_int32_max)
  && forallb (deadline_in_range afterDays w) (maps w).

End Spec.

(* ================================================================= *)
(** ** A sample deployment, used to run the service on concrete inputs *)

Module Sample.

Definition is_hex (c : ascii) : bool :=
  let n := nat_of_ascii c in
  ((48 <=? n) && (n <=? 57) || (97 <=? n) && (n <=? 102)
   || (65 <=? n) && (n <=? 70))%nat.

Fixpoint uuid_shape (i : nat) (s : string) : bool :=
  match s with
  | EmptyString => Nat.eqb i 36
  | String c s' =>
      (if (Nat.eqb i 8 || Nat.eqb i 13 || Nat.eqb i 18 || Nat.eqb i 23)%bool
       then Ascii.eqb c "-" else is_hex c)
      && uuid_shape (S i) s'
  end.

(** A validator of the 8-4-4-4-12 hexadecimal shape of a UUID. *)
Definition uuid_validate (s : string) : bool := uuid_shape 0 s.

#[local] Instance deployment : Collaborators := {|
  LocalTZA := fun _ _ => 0;
  uuidValidate := uuid_validate;
  deleteAfterDays := 30;
  IMmpClientNode := MmpNode.t;
  mapClientNodeToMmpNode :=
    fun x mapId => MmpNode.with_nodeMapId x (render EmptyString mapId);
  mapMmpMapToClient := fun m ns _ _ => {| uuid := MmpMap.id m; data := ns |}
|}.

Definition options : CachedMapOptions :=
  {| fontMaxSize := 70; fontMinSize := 15; fontIncrement := 5 |}.

Definition mapA : string := "11111111-1111-4111-8111-111111111111".
Definition mapB : string := "22222222-2222-4222-8222-222222222222".
Definition mapC : string := "33333333-3333-4333-8333-333333333333".

Definition mk_node (id : string) (parent : option string) (root detached : bool)
    (order ts : Z) : MmpNode.t :=
  {| MmpNode.id := id; MmpNode.nodeMapId := EmptyString; MmpNode.nodeParentId := parent;
     MmpNode.root := root; MmpNode.detached := detached;
     MmpNode.orderNumber := order; MmpNode.lastModified := ts;
     MmpNode.name := id |}.

Definition stored (mapId : string) (n : MmpNode.t) : MmpNode.t :=
  MmpNode.with_nodeMapId n mapId.

Definition mk_map (id : string) (ts : Z) : MmpMap.t :=
  {| MmpMap.id := id; MmpMap.lastModified := ts; MmpMap.options := options |}.

Definition world (ms : list MmpMap.t) (ns : list MmpNode.t) (now : Z) : Repo.World :=
  {| Repo.maps := ms; Repo.nodes := ns; Repo.dates := []; Repo.clock := now;
     Repo.warnings := []; Repo.queries := [] |}.

Definition days (n : Z) : Z := n * JSDate.msPerDay.

Local Open Scope string_scope.

Definition rootP : MmpNode.t := mk_node "P" None true false 1 (days 50).
Definition childC : MmpNode.t :=
  mk_node "c" (Some "P") false false 2 (days 50).
Definition nodeA : MmpNode.t := mk_node "A" None true false 1 (days 50).
Definition nodeB : MmpNode.t :=
  mk_node "B" (Some "A") false false 2 (days 50).
Definition nodeC : MmpNode.t := mk_node "C" None true false 7 (days 60).
Definition detachedWithParent : MmpNode.t :=
  mk_node "P" (Some "A") false true 3 (days 50).

(** One map, no node yet. *)
Definition fresh_map : Repo.World := world [mk_map mapA (days 40)] [] (days 100).

(** The root [P] is stored under map A. *)
Definition with_root : Repo.World :=
  world [mk_map mapA (days 40)] [stored mapA rootP] (days 100).

(** Map A holds [A] and [B]; map B holds a node too. *)
Definition two_nodes : Repo.World :=
  world [mk_map mapA (days 40); mk_map mapB (days 40)]
        [stored mapA nodeA; stored mapB rootP; stored mapA nodeB] (days 100).

(** Day 100.  Map A: newest node modified on day 69 (31 days ago), the map
    itself on day 99.  Map B: its node modified on day 71 (29 days ago), the
    map itself on day 1.  Map C: no node, itself modified on day 69. *)
Definition three_maps : Repo.World :=
  world [mk_map mapA (days 99); mk_map mapB (days 1); mk_map mapC (days 69)]
        [stored mapA (mk_node "a0" None true false 1 (days 10));
         stored mapB (mk_node "b1" None true false 1 (days 71));
         stored mapA (mk_node "a1" (Some "a0") false false 2 (days 69))]
        (days 100).

End Sample.

(* ================================================================= *)
(** ** The rest of the service: single nodes and map options *)

(** What [updateNode] and [removeNode] take besides [Collaborators]: the
    [id] property of a client node; the object spread
    [{ ...existingNode, ...mapped }], in which the columns that the client
    mapping sets come from [mapped] and the others from [existingNode]
    (which ones it sets is the mapping's business); and what the ORM hands
    back for an entity it removed (it clears the primary key of the
    object). *)
Class ClientAccess `{Collaborators} := {
  client_id : IMmpClientNode -> string;
  spread : MmpNode.t -> MmpNode.t -> MmpNode.t;
  removed_entity : MmpNode.t -> MmpNode.t
}.

Module ServiceMore.
Import Repo Service.
Local Open Scope promise_scope.

(** [nodesRepository.remove(entity)]: delete by the primary key of the
    entity.  ([queries] traces the calls of the methods above only.) *)
Definition nodes_remove `{ClientAccess} (n : MmpNode.t) : Promise MmpNode.t :=
  fun w =>
    (with_nodes w
       (filter (fun r => negb (node_has_key (MmpNode.id n) (MmpNode.nodeMapId n) r))
               (nodes w)),
     Fulfilled (removed_entity n)).

(** The row of a map with its [options] column set. *)
Definition with_options (m : MmpMap.t) (o : CachedMapOptions) : MmpMap.t :=
  {| MmpMap.id := MmpMap.id m; MmpMap.lastModified := MmpMap.lastModified m;
     MmpMap.options := o |}.

(** [mapsRepository.update(mapId, { options })]: set the column on the row
    whose primary key is [mapId]. *)
Definition maps_updateOptions (mapId : string) (o : CachedMapOptions) : Promise unit :=
  fun w =>
    (with_maps w (map (fun m => if map_has_id mapId m then with_options m o else m)
                      (maps w)),
     Fulfilled tt).

(** [{ ...node, lastModified }] *)
Definition with_lastModified (node : MmpNode.t) (ts : Z) : MmpNode.t :=
  {| MmpNode.id := MmpNode.id node; MmpNode.nodeMapId := MmpNode.nodeMapId node;
     MmpNode.nodeParentId := MmpNode.nodeParentId node;
     MmpNode.root := MmpNode.root node; MmpNode.detached := MmpNode.detached node;
     MmpNode.orderNumber := MmpNode.orderNumber node; MmpNode.lastModified := ts;
     MmpNode.name := MmpNode.name node |}.

Section Methods.
Context `{ClientAccess}.

Definition updateNode (mapId : string) (clientNode : IMmpClientNode)
  : Promise MmpNode.t :=
  existingNode <- nodes_findOne (client_id clientNode) mapId ;;
  match existingNode with
  | None => reject NoReason
  | Some existingNode =>
      let mapped := mapClientNodeToMmpNode clientNode (Some mapId) in
      now <- newDateNow ;;
      ts <- date_parameter now ;;
      nodes_save (with_lastModified (spread existingNode mapped) ts)
  end.

Definition removeNode (clientNode : IMmpClientNode) (mapId : string)
  : Promise (option MmpNode.t) :=
  existingNode <- nodes_findOne (client_id clientNode) mapId ;;
  match existingNode with
  | None => resolve None
  | Some existingNode =>
      removed <- nodes_remove existingNode ;;
      resolve (Some removed)
  end.

Definition updateMapOptions (mapId : string) (clientOptions : CachedMapOptions)
  : Promise (option MmpMap.t) :=
  maps_updateOptions mapId clientOptions ;;;
  maps_findOne mapId.

End Methods.
End ServiceMore.

Module SpecMore.
Import Repo Service Spec.

(** The primary key of a node row. *)
Definition node_key (n : MmpNode.t) : string * string :=
  (MmpNode.nodeMapId n, MmpNode.id n).

(** No two rows of the nodes table share a primary key. *)
Definition node_keys_distinct (w : World) : Prop :=
  NoDup (map node_key (nodes w)).

(** A node with identifier [id] is stored under map [mapId]. *)
Definition stored_under (w : World) (mapId id : string) : Prop :=
  exists n, In n (nodes w) /\ MmpNode.id n = id /\ MmpNode.nodeMapId n = mapId.

(** Every node of the sequence is a root, or detached, or has its parent
    among [known] or earlier in the sequence. *)
Fixpoint parents_first (known : list string) (ns : list MmpNode.t) : Prop :=
  match ns with
  | [] => True
  | n :: rest =>
      (MmpNode.root n = true \/ MmpNode.detached n = true
       \/ exists p, truthy (MmpNode.nodeParentId n) = Some p /\ In p known)
      /\ parents_first (MmpNode.id n :: known) rest
  end.

(** The node passes the first guard of [addNode]. *)
Definition no_detached_parent (n : MmpNode.t) : Prop :=
  MmpNode.detached n = false \/ truthy (MmpNode.nodeParentId n) = None.

(** The nodes submitted with a client map, as the batch insert gets them. *)
Definition submitted `{Collaborators} (clientMap : IMmpClientMap IMmpClientNode)
  : list MmpNode.t :=
  map (fun x => mapClientNodeToMmpNode x (Some (uuid clientMap))) (data clientMap).

(** The world after the deletion step of [updateMap]. *)
Definition cleared `{Collaborators} (clientMap : IMmpClientMap IMmpClientNode)
    (w : World) : World :=
  fst (nodes_deleteByMap (uuid clientMap) w).

(** The rows after [update(mapId, { options })]. *)
Definition options_set (mapId : string) (o : CachedMapOptions) (ms : list MmpMap.t)
  : list MmpMap.t :=
  map (fun m => if map_has_id mapId m then ServiceMore.with_options m o else m) ms.

End SpecMore.

Module SampleMore.
Import Sample.

#[local] Instance access : @ClientAccess Sample.deployment :=
  @Build_ClientAccess Sample.deployment MmpNode.id (fun _ mapped => mapped)
                      (fun n => n).

(** Midnight UTC of 29 February 2024, in milliseconds. *)
Definition leap_day : Z := 1709164800000.

End SampleMore.

(* ================================================================= *)
(** ** Facts about the Date arithmetic *)

Module DateFacts.
Import JSDate.

Lemma DayFromYear_succ y : DayFromYear (y + 1) = DayFromYear y + DaysInYear y.
Proof.
  unfold DayFromYear, DaysInYear.
  destruct (Z.eqb_spec (y mod 4) 0), (Z.eqb_spec (y mod 100) 0),
    (Z.eqb_spec (y mod 400) 0);
    cbn [negb]; Z.to_euclidean_division_equations; lia.
Qed.

Lemma DayFromYear_mono a b : a <= b -> DayFromYear a <= DayFromYear b.
Proof. unfold DayFromYear. intros. Z.to_euclidean_division_equations. lia. Qed.

(** [YearFromTime t] is the year whose days contain [Day t]. *)
Lemma YearFromTime_spec t :
  DayFromYear (YearFromTime t) <= Day t < DayFromYear (YearFromTime t + 1).
Proof.
  unfold YearFromTime. set (d := Day t). clearbody d. cbv zeta.
  destruct (Z.ltb_spec d (DayFromYear (1970 + 400 * d / 146097))).
  - replace (1970 + 400 * d / 146097 - 1 + 1) with (1970 + 400 * d / 146097) by lia.
    split; [|lia]. unfold DayFromYear in *. Z.to_euclidean_division_equations. lia.
  - destruct (Z.leb_spec (DayFromYear (1970 + 400 * d / 146097 + 1)) d).
    + split; [lia|]. unfold DayFromYear in *. Z.to_euclidean_division_equations. lia.
    + lia.
Qed.

Lemma YearFromTime_unique t y :
  DayFromYear y <= Day t < DayFromYear (y + 1) -> YearFromTime t = y.
Proof.
  intros Hy. pose proof (YearFromTime_spec t) as Ht.
  destruct (Z.lt_trichotomy (YearFromTime t) y) as [Hlt | [Heq | Hgt]]; [|exact Heq|].
  - pose proof (DayFromYear_mono (YearFromTime t + 1) y ltac:(lia)). lia.
  - pose proof (DayFromYear_mono (y + 1) (YearFromTime t) ltac:(lia)). lia.
Qed.

Lemma DaysInYear_cases y : DaysInYear y = 365 \/ DaysInYear y = 366.
Proof.
  unfold DaysInYear.
  destruct (y mod 4 =? 0), (y mod 100 =? 0), (y mod 400 =? 0); cbn; auto.
Qed.

Lemma InLeapYear_cases t : InLeapYear t = 0 \/ InLeapYear t = 1.
Proof. unfold InLeapYear. destruct (_ =? _); auto. Qed.

Lemma MonthFromTime_range t : 0 <= MonthFromTime t <= 11.
Proof.
  unfold MonthFromTime. cbv zeta.
  repeat match goal with |- context [if ?b then _ else _] => destruct b end; lia.
Qed.

(** The day of [t] is the start of its month plus its date, less one. *)
Lemma Day_decomposition t :
  Day t = DayFromYear (YearFromTime t)
          + MonthStart (MonthFromTime t) (InLeapYear t) + DateFromTime t - 1.
Proof.
  unfold DateFromTime, MonthFromTime, DayWithinYear. cbv zeta.
  repeat match goal with |- context [if ?b then _ else _] => destruct b end;
    cbn [MonthStart]; lia.
Qed.

(** Moving the date of [t] by [n] moves the day number by [n]. *)
Lemma MakeDay_shift t n :
  MakeDay (YearFromTime t) (MonthFromTime t) (DateFromTime t + n) = Day t + n.
Proof.
  pose proof (MonthFromTime_range t) as Hm.
  unfold MakeDay. cbv zeta.
  replace (MonthFromTime t / 12) with 0 by (symmetry; apply Z.div_small; lia).
  rewrite Z.mod_small by lia. rewrite Z.add_0_r.
  fold (InLeapYear t). pose proof (Day_decomposition t). lia.
Qed.

Lemma MakeDate_Day_TimeWithinDay t n :
  MakeDate (Day t + n) (TimeWithinDay t) = t + n * msPerDay.
Proof.
  unfold MakeDate, Day, TimeWithinDay.
  pose proof (Z.div_mod t msPerDay ltac:(unfold msPerDay; lia)). lia.
Qed.

Lemma month_cases mn :
  0 <= mn <= 11 ->
  mn = 0 \/ mn = 1 \/ mn = 2 \/ mn = 3 \/ mn = 4 \/ mn = 5 \/ mn = 6
  \/ mn = 7 \/ mn = 8 \/ mn = 9 \/ mn = 10 \/ mn = 11.
Proof. lia. Qed.

Ltac each_month H :=
  destruct (month_cases _ H)
    as [-> | [-> | [-> | [-> | [-> | [-> | [-> | [-> | [-> | [-> | [-> | ->]]]]]]]]]]].

Lemma MonthStart_bound mn l :
  0 <= mn <= 11 -> 0 <= l <= 1 -> 0 <= MonthStart mn l < 365 + l.
Proof. intros Hmn Hl. each_month Hmn; cbn [MonthStart]; lia. Qed.

Lemma month_of_MonthStart mn l d :
  0 <= mn <= 11 -> 0 <= l <= 1 -> d = MonthStart mn l ->
  (if d <? 31 then 0
   else if d <? 59 + l then 1
   else if d <? 90 + l then 2
   else if d <? 120 + l then 3
   else if d <? 151 + l then 4
   else if d <? 181 + l then 5
   else if d <? 212 + l then 6
   else if d <? 243 + l then 7
   else if d <? 273 + l then 8
   else if d <? 304 + l then 9
   else if d <? 334 + l then 10
   else 11) = mn.
Proof.
  intros Hmn Hl ->.
  assert (Hc : l = 0 \/ l = 1) by lia.
  destruct Hc as [-> | ->]; each_month Hmn; reflexivity.
Qed.

(** The day that [MakeDay] builds on is the first of the requested month:
    its year, month and date are the requested ones. *)
Lemma MakeDay_first_of_month year month :
  let t := MakeDate (MakeDay year month 1) 0 in
  YearFromTime t = year + month / 12
  /\ MonthFromTime t = month mod 12
  /\ DateFromTime t = 1.
Proof.
  cbv zeta.
  set (t := MakeDate (MakeDay year month 1) 0).
  set (ym := year + month / 12). set (mn := month mod 12).
  set (l := if DaysInYear ym =? 366 then 1 else 0).
  assert (Hmn : 0 <= mn <= 11)
    by (subst mn; pose proof (Z.mod_pos_bound month 12 ltac:(lia)); lia).
  assert (Hl : 0 <= l <= 1) by (subst l; destruct (_ =? _); lia).
  assert (Hdays : DaysInYear ym = 365 + l).
  { subst l. destruct (DaysInYear_cases ym) as [E | E]; rewrite E; reflexivity. }
  assert (Hday : Day t = DayFromYear ym + MonthStart mn l).
  { subst t. unfold MakeDate, Day, MakeDay. cbv zeta. fold ym mn l.
    rewrite Z.add_0_r, Z.div_mul by (unfold msPerDay; lia). lia. }
  pose proof (MonthStart_bound mn l Hmn Hl) as Hstart.
  assert (Hy : YearFromTime t = ym).
  { apply YearFromTime_unique. rewrite Hday, DayFromYear_succ. lia. }
  assert (Hleap : InLeapYear t = l) by (unfold InLeapYear; rewrite Hy; reflexivity).
  assert (Hw : DayWithinYear t = MonthStart mn l)
    by (unfold DayWithinYear; rewrite Hy, Hday; lia).
  assert (Hm : MonthFromTime t = mn).
  { unfold MonthFromTime. cbv zeta. rewrite Hleap.
    apply month_of_MonthStart; assumption. }
  split; [exact Hy|]. split; [exact Hm|].
  unfold DateFromTime. cbv zeta. rewrite Hm, Hw, Hleap.
  clearbody mn l. clear - Hmn. each_month Hmn; cbn [MonthStart]; lia.
Qed.

(** *** The heap of Date objects *)

Lemma thisTimeValue_set_same h r v :
  (r < List.length h)%nat -> thisTimeValue (setDateValue h r v) r = v.
Proof.
  unfold thisTimeValue. revert r.
  induction h as [|x h IH]; intros [|r] Hr; cbn in *; try lia; auto.
  apply IH. lia.
Qed.

Lemma thisTimeValue_set_other h r r' v :
  r <> r' -> thisTimeValue (setDateValue h r v) r' = thisTimeValue h r'.
Proof.
  unfold thisTimeValue. revert r r'.
  induction h as [|x h IH]; intros [|r] [|r'] Hne; cbn; auto; try congruence.
Qed.

Lemma thisTimeValue_new_old h v r :
  (r < List.length h)%nat -> thisTimeValue (h ++ [v]) r = thisTimeValue h r.
Proof. intros. unfold thisTimeValue. apply app_nth1. assumption. Qed.

Lemma thisTimeValue_new_fresh h v : thisTimeValue (h ++ [v]) (List.length h) = v.
Proof.
  unfold thisTimeValue. rewrite app_nth2 by lia. rewrite Nat.sub_diag. reflexivity.
Qed.

Lemma TimeClip_in_range t : Z.abs t <= maxTime -> TimeClip t = Some t.
Proof. unfold TimeClip. intros. destruct (Z.ltb_spec maxTime (Z.abs t)); [lia | reflexivity]. Qed.

Section Zone.
Variable tza : Z -> bool -> Z.

(** [d.setDate(d.getDate() + n)] on a valid Date moves its local time by
    [n] whole days. *)
Lemma setDate_getDate_plus h r t n :
  (r < List.length h)%nat ->
  thisTimeValue h r = Some t ->
  thisTimeValue (setDate tza r (num_add (getDate tza h r) n) h) r
  = TimeClip (UTC tza (LocalTime tza t + n * msPerDay)).
Proof.
  intros Hr Ht. unfold setDate, getDate. rewrite Ht. cbn [num_add].
  rewrite thisTimeValue_set_same by assumption.
  rewrite MakeDay_shift, MakeDate_Day_TimeWithinDay. reflexivity.
Qed.

Lemma setDate_other h r r' v :
  r <> r' -> thisTimeValue (setDate tza r v h) r' = thisTimeValue h r'.
Proof.
  intros. unfold setDate. destruct (thisTimeValue h r); [|reflexivity].
  apply thisTimeValue_set_other. assumption.
Qed.

End Zone.

End DateFacts.

(* ================================================================= *)
(** ** The retention calculator *)

Module RetentionFacts.
Import JSDate DateFacts Repo Service.
Import Spec.

Section WithCollaborators.
Context `{Collaborators}.

(** The copy that [calculcateDeletedAt] makes and then moves. *)
Lemma calculcateDeletedAt_run h lastModified afterDays t :
  (lastModified < List.length h)%nat ->
  thisTimeValue h lastModified = Some t ->
  Z.abs t <= maxTime ->
  exists h',
    calculcateDeletedAt lastModified afterDays h = (h', List.length h)
    /\ (forall r, (r < List.length h)%nat -> thisTimeValue h' r = thisTimeValue h r)
    /\ thisTimeValue h' (List.length h)
       = TimeClip (UTC LocalTZA (LocalTime LocalTZA t + afterDays * msPerDay)).
Proof.
  intros Hr Ht Hvalid.
  unfold calculcateDeletedAt, newDate, getTime. rewrite Ht.
  rewrite (TimeClip_in_range t Hvalid).
  eexists. split; [reflexivity|]. split.
  - intros r Hlt. rewrite setDate_other by lia.
    apply thisTimeValue_new_old. assumption.
  - rewrite (setDate_getDate_plus LocalTZA _ _ t).
    + reflexivity.
    + rewrite length_app. cbn. lia.
    + apply thisTimeValue_new_fresh.
Qed.

(** C6 (amended).  For a valid Date [lastModified] with time value [t] and
    any whole number of days [afterDays], [calculcateDeletedAt] returns a
    new Date object; no Date object that existed before the call is changed
    (in particular not [lastModified]); and the new object holds the local
    time of [t] moved by [afterDays] whole days, read back as a time value,
    when that lies within the range of Date (8.64e15 ms either side of the
    epoch), and is an Invalid Date otherwise.  In a zone of constant offset
    the moved time is [t + afterDays * msPerDay]. *)
Theorem calculcateDeletedAt_adds_days h lastModified afterDays t :
  (lastModified < List.length h)%nat ->
  thisTimeValue h lastModified = Some t ->
  Z.abs t <= maxTime ->
  let deadline := UTC LocalTZA (LocalTime LocalTZA t + afterDays * msPerDay) in
  let (h', copyDate) := calculcateDeletedAt lastModified afterDays h in
  copyDate <> lastModified
  /\ (forall r, (r < List.length h)%nat -> thisTimeValue h' r = thisTimeValue h r)
  /\ thisTimeValue h' copyDate
     = (if maxTime <? Z.abs deadline then None else Some deadline)
  /\ (forall c, (forall x b, LocalTZA x b = c) ->
                deadline = t + afterDays * msPerDay).
Proof.
  intros Hr Ht Hvalid. cbv zeta.
  destruct (calculcateDeletedAt_run h lastModified afterDays t Hr Ht Hvalid)
    as (h' & -> & Hold & Hnew).
  split; [lia|]. split; [exact Hold|]. split; [exact Hnew|].
  intros c Hc. unfold UTC, LocalTime. rewrite !Hc. lia.
Qed.

End WithCollaborators.

Lemma calculcateDeletedAt_adds_days_witness :
  let (h', copyDate) :=
    @calculcateDeletedAt Sample.deployment 0%nat 30 [Some 1709164800000] in
  copyDate <> 0%nat
  /\ (forall r, (r < 1)%nat ->
                thisTimeValue h' r = thisTimeValue [Some 1709164800000] r)
  /\ thisTimeValue h' copyDate = Some 1711756800000.
Proof.
  pose proof (@calculcateDeletedAt_adds_days Sample.deployment
                [Some 1709164800000] 0%nat 30 1709164800000
                ltac:(cbn; lia) eq_refl ltac:(unfold maxTime; lia)) as W.
  cbv zeta in W.
  destruct (@calculcateDeletedAt Sample.deployment 0%nat 30 [Some 1709164800000])
    as [h' copyDate].
  destruct W as (W1 & W2 & W3 & _).
  split; [exact W1|]. split; [exact W2|]. exact W3.
Defined.

(** The claim as stated fails at the last day of the Date range: one day
    after it is an Invalid Date, not a deadline. *)
Lemma calculcateDeletedAt_out_of_range :
  let (h', copyDate) :=
    @calculcateDeletedAt Sample.deployment 0%nat 1 [Some maxTime] in
  thisTimeValue h' copyDate = None
  /\ thisTimeValue h' copyDate <> Some (maxTime + 1 * msPerDay).
Proof. vm_compute. split; [reflexivity | discriminate]. Qed.

End RetentionFacts.

(* ================================================================= *)
(** ** Facts about the tables *)

Module RepoFacts.
Import Repo.
Import Spec.

Lemma truthy_Some s v : truthy s = Some v -> s = Some v /\ v <> EmptyString.
Proof.
  destruct s as [[|c s]|]; cbn; intros E; inversion E; subst.
  split; [reflexivity | discriminate].
Qed.

Lemma truthy_None s : truthy s = None <-> s = None \/ s = Some EmptyString.
Proof.
  destruct s as [[|c s]|]; cbn; split; intros E; auto; try discriminate.
  destruct E as [E | E]; discriminate.
Qed.

Lemma node_has_key_true id mapId n :
  node_has_key id mapId n = true <-> MmpNode.id n = id /\ MmpNode.nodeMapId n = mapId.
Proof.
  unfold node_has_key. rewrite andb_true_iff, !String.eqb_eq. reflexivity.
Qed.

Lemma node_in_map_true mapId n :
  node_in_map mapId n = true <-> MmpNode.nodeMapId n = mapId.
Proof. unfold node_in_map. apply String.eqb_eq. Qed.

Lemma map_has_id_true id m : map_has_id id m = true <-> MmpMap.id m = id.
Proof. unfold map_has_id. apply String.eqb_eq. Qed.

Lemma existsb_node_has_key id mapId rows :
  existsb (node_has_key id mapId) rows = true
  <-> exists n, In n rows /\ MmpNode.id n = id /\ MmpNode.nodeMapId n = mapId.
Proof.
  rewrite existsb_exists. split; intros (n & Hin & Hk); exists n; split; auto;
    apply node_has_key_true; assumption.
Qed.

(** Saving a row whose key is not stored appends it. *)
Lemma upsert_fresh n rows :
  find (node_has_key (MmpNode.id n) (MmpNode.nodeMapId n)) rows = None ->
  upsert n rows = rows ++ [n].
Proof.
  induction rows as [|r rows IH]; cbn; [reflexivity|].
  destruct (node_has_key _ _ r); [discriminate|].
  intros Hf. rewrite IH by assumption. reflexivity.
Qed.

(** *** [ORDER BY orderNumber ASC] *)


Lemma insert_by_orderNumber_perm n l :
  Permutation (n :: l) (insert_by_orderNumber n l).
Proof.
  induction l as [|x l IH]; cbn; [apply Permutation_refl|].
  destruct (_ <? _); [apply Permutation_refl|].
  eapply perm_trans; [apply perm_swap|]. apply perm_skip. exact IH.
Qed.

Lemma order_by_orderNumber_perm l : Permutation l (order_by_orderNumber l).
Proof.
  induction l as [|x l IH]; cbn; [constructor|].
  eapply perm_trans; [|apply insert_by_orderNumber_perm].
  apply perm_skip. exact IH.
Qed.

Lemma insert_by_orderNumber_sorted n l :
  Sorted ascending l -> Sorted ascending (insert_by_orderNumber n l).
Proof.
  induction l as [|x l IH]; cbn; intros Hs.
  - repeat constructor.
  - destruct (Z.ltb_spec (MmpNode.orderNumber n) (MmpNode.orderNumber x)).
    + constructor; [assumption|]. constructor. unfold ascending. lia.
    + inversion Hs as [|? ? Hs' Hhd]; subst.
      constructor; [apply IH; assumption|].
      destruct l as [|y l]; cbn.
      * constructor. unfold ascending. lia.
      * destruct (_ <? _); constructor; unfold ascending; try lia.
        inversion Hhd; subst. assumption.
Qed.

Lemma order_by_orderNumber_sorted l : Sorted ascending (order_by_orderNumber l).
Proof.
  induction l as [|x l IH]; cbn; [constructor|].
  apply insert_by_orderNumber_sorted. exact IH.
Qed.

Lemma order_by_orderNumber_In l x : In x (order_by_orderNumber l) <-> In x l.
Proof.
  split; apply Permutation_in;
    [apply Permutation_sym|]; apply order_by_orderNumber_perm.
Qed.

(** *** [max] *)

Lemma sql_max_fold acc l :
  fold_left (fun acc x => match acc with
                          | None => Some x
                          | Some a => Some (Z.max a x)
                          end) l (Some acc)
  = Some (fold_left Z.max l acc).
Proof. revert acc. induction l as [|x l IH]; intros acc; cbn; auto. Qed.

Lemma fold_max_ge l acc : acc <= fold_left Z.max l acc.
Proof.
  revert acc. induction l as [|x l IH]; intros acc; cbn; [lia|].
  specialize (IH (Z.max acc x)). lia.
Qed.

Lemma fold_max_upper l acc x : In x l -> x <= fold_left Z.max l acc.
Proof.
  revert acc. induction l as [|y l IH]; intros acc Hx; [destruct Hx|].
  destruct Hx as [Hx | Hx]; cbn.
  - subst. pose proof (fold_max_ge l (Z.max acc x)). lia.
  - apply IH. assumption.
Qed.

Lemma fold_max_attained l acc :
  fold_left Z.max l acc = acc \/ In (fold_left Z.max l acc) l.
Proof.
  revert acc. induction l as [|y l IH]; intros acc; cbn; [auto|].
  destruct (IH (Z.max acc y)) as [E | E]; [|auto].
  rewrite E. destruct (Z.max_spec acc y) as [[_ ->] | [_ ->]]; auto.
Qed.

(** [sql_max] is NULL exactly on no rows, and otherwise the greatest value. *)
Lemma sql_max_spec l :
  match sql_max l with
  | None => l = []
  | Some m => In m l /\ forall x, In x l -> x <= m
  end.
Proof.
  unfold sql_max. destruct l as [|a l]; cbn; [reflexivity|].
  rewrite sql_max_fold. split.
  - destruct (fold_max_attained l a) as [E | E]; [rewrite E|]; auto.
  - intros x [<- | Hx]; [apply fold_max_ge | apply fold_max_upper; assumption].
Qed.

End RepoFacts.

(* ================================================================= *)
(** ** The service: lookups, guards and the tree validator *)

Module GuardFacts.
Import Repo Service RepoFacts.
Import Spec.


Section WithCollaborators.
Context `{Collaborators}.

(** C8.  [findMap] on a string the validator refuses is rejected with
    [MalformedUUIDError], the world untouched: no call reached the storage.
    On a well-formed UUID it issues one [findOne] and is fulfilled with the
    stored map of that identifier, or with nothing when no map has it. *)
Theorem findMap_validates_before_storage (uuid : string) (w : World) :
  if uuidValidate uuid then
    exists w',
      findMap uuid w = (w', Fulfilled (find (map_has_id uuid) (maps w)))
      /\ maps w' = maps w /\ nodes w' = nodes w
      /\ queries w' = queries w ++ [MapFindOne uuid]
      /\ match find (map_has_id uuid) (maps w) with
         | Some m => In m (maps w) /\ MmpMap.id m = uuid
         | None => forall m, In m (maps w) -> MmpMap.id m <> uuid
         end
  else
    findMap uuid w = (w, Rejected (MalformedUUIDError "Invalid UUID")).
Proof.
  unfold findMap. destruct (uuidValidate uuid); cbn [negb]; [|reflexivity].
  eexists. split; [reflexivity|]. cbn. repeat split.
  destruct (find (map_has_id uuid) (maps w)) as [m|] eqn:E.
  - apply find_some in E. destruct E as [Hin Hid].
    split; [assumption | apply map_has_id_true; assumption].
  - intros m Hin Hid. apply (find_none _ _ E) in Hin.
    apply map_has_id_true in Hid. congruence.
Qed.

(** C9.  [addNode] is rejected when the node argument is missing, when the
    map identifier is missing or empty, and when the node is detached and
    carries a non-empty parent reference; the world is left as it was, so
    no record is inserted (and the storage is not even consulted). *)
Theorem addNode_rejects_invalid (mapId : option string) (node : option MmpNode.t)
    (w : World) :
  node = None
  \/ truthy mapId = None
  \/ (exists n, node = Some n /\ MmpNode.detached n = true
                /\ truthy (MmpNode.nodeParentId n) <> None) ->
  exists e, addNode mapId node w = (w, Rejected e).
Proof.
  intros Hbad. unfold addNode.
  destruct node as [n|]; [|eexists; reflexivity].
  destruct (MmpNode.detached n) eqn:Ed, (truthy (MmpNode.nodeParentId n)) eqn:Ep;
    cbn [andb]; try (eexists; reflexivity).
  - destruct Hbad as [Hbad | [Hbad | (n' & Hn & _ & Hp)]].
    + discriminate.
    + rewrite Hbad. eexists; reflexivity.
    + inversion Hn; subst. congruence.
  - destruct Hbad as [Hbad | [Hbad | (n' & Hn & Hd & _)]].
    + discriminate.
    + rewrite Hbad. eexists; reflexivity.
    + inversion Hn; subst. congruence.
  - destruct Hbad as [Hbad | [Hbad | (n' & Hn & Hd & _)]].
    + discriminate.
    + rewrite Hbad. eexists; reflexivity.
    + inversion Hn; subst. congruence.
Qed.

(** The existence probe answers without failing, and never writes. *)
Lemma existsNode_run (mapId parentId : option string) (w : World) :
  exists w' b,
    existsNode mapId parentId w = (w', Fulfilled b)
    /\ maps w' = maps w /\ nodes w' = nodes w /\ dates w' = dates w
    /\ warnings w' = warnings w
    /\ (b = true <->
        exists m p, truthy mapId = Some m /\ truthy parentId = Some p
                    /\ exists n, In n (nodes w) /\ MmpNode.id n = p
                                 /\ MmpNode.nodeMapId n = m).
Proof.
  unfold existsNode.
  destruct (truthy mapId) as [m|] eqn:Em, (truthy parentId) as [p|] eqn:Ep;
    try (exists w, false; repeat split; try reflexivity; try discriminate;
         intros (m' & p' & E1 & E2 & _); discriminate).
  eexists. eexists. split; [reflexivity|]. cbn. repeat split.
  - intros E. exists m, p. repeat split. apply existsb_node_has_key. assumption.
  - intros (m' & p' & E1 & E2 & Hex). inversion E1; inversion E2; subst.
    apply existsb_node_has_key. assumption.
Qed.

Lemma validatesNodeParentForNode_run (mapId : option string) (node : MmpNode.t)
    (w : World) :
  exists w' b,
    validatesNodeParentForNode mapId node w = (w', Fulfilled b)
    /\ maps w' = maps w /\ nodes w' = nodes w /\ dates w' = dates w
    /\ warnings w' = warnings w
    /\ (b = true <->
        MmpNode.root node = true \/ MmpNode.detached node = true
        \/ exists m p, truthy mapId = Some m
                       /\ truthy (MmpNode.nodeParentId node) = Some p
                       /\ exists n, In n (nodes w) /\ MmpNode.id n = p
                                    /\ MmpNode.nodeMapId n = m).
Proof.
  unfold validatesNodeParentForNode.
  destruct (MmpNode.root node) eqn:Er;
    [exists w, true; repeat split; auto|].
  destruct (MmpNode.detached node) eqn:Ed;
    [exists w, true; repeat split; auto|].
  destruct (truthy (MmpNode.nodeParentId node)) as [p|] eqn:Ep.
  - destruct (existsNode_run mapId (MmpNode.nodeParentId node) w)
      as (w' & b & E & Hm & Hn & Hd & Hw & Hb).
    exists w', b. rewrite E. repeat split; auto.
    + intros Htrue. right. right. rewrite Ep in Hb. apply Hb. assumption.
    + intros [Hr | [Hr | Hex]]; try discriminate.
      apply Hb. rewrite Ep. assumption.
  - exists w, false. repeat split; auto; try discriminate.
    intros [Hr | [Hr | (m & p & _ & Hp & _)]]; discriminate.
Qed.

(** C4.  On tables that file every node under a non-empty map identifier,
    the tree validator is fulfilled (never rejected) with [true] exactly
    when the node is a root, or is detached, or carries a non-empty parent
    reference and a node with that identifier is stored under the same
    map.  The existence probe is fulfilled with [false], the world
    untouched, when the map identifier or the node identifier is missing
    or empty. *)
Theorem validatesNodeParentForNode_iff (mapId : option string) (node : MmpNode.t)
    (w : World) :
  filed_under_maps w ->
  (exists w' b,
     validatesNodeParentForNode mapId node w = (w', Fulfilled b)
     /\ maps w' = maps w /\ nodes w' = nodes w
     /\ (b = true <->
         MmpNode.root node = true \/ MmpNode.detached node = true
         \/ exists p, MmpNode.nodeParentId node = Some p /\ p <> EmptyString
                      /\ exists n, In n (nodes w) /\ MmpNode.id n = p
                                   /\ Some (MmpNode.nodeMapId n) = mapId))
  /\ (forall mapId' parentId,
        truthy mapId' = None \/ truthy parentId = None ->
        existsNode mapId' parentId w = (w, Fulfilled false)).
Proof.
  intros Hfiled. split.
  - destruct (validatesNodeParentForNode_run mapId node w)
      as (w' & b & E & Hm & Hn & _ & _ & Hb).
    exists w', b. repeat split; auto.
    + intros Htrue. apply Hb in Htrue.
      destruct Htrue as [Hr | [Hr | (m & p & Em & Ep & n & Hin & Hid & Hmap)]]; auto.
      right. right. apply truthy_Some in Em, Ep.
      destruct Em as [-> _], Ep as [Ep Hne].
      exists p. repeat split; auto. exists n. repeat split; auto. congruence.
    + intros [Hr | [Hr | (p & Ep & Hne & n & Hin & Hid & Hmap)]]; apply Hb; auto.
      right. right. exists (MmpNode.nodeMapId n), p. repeat split.
      * rewrite <- Hmap. cbn. specialize (Hfiled n Hin).
        destruct (MmpNode.nodeMapId n); [congruence | reflexivity].
      * rewrite Ep. cbn. destruct p; [congruence | reflexivity].
      * exists n. auto.
  - intros mapId' parentId Hempty. unfold existsNode.
    destruct Hempty as [-> | ->]; [reflexivity|].
    destruct (truthy mapId'); reflexivity.
Qed.

End WithCollaborators.

Lemma findMap_rejects_not_a_uuid (w : World) :
  @findMap Sample.deployment "not-a-uuid" w
  = (w, Rejected (MalformedUUIDError "Invalid UUID")).
Proof. reflexivity. Qed.

End GuardFacts.

(* ================================================================= *)
(** ** The service: inserting nodes *)

Module InsertFacts.
Import Repo Service RepoFacts GuardFacts.
Import Spec.


Lemma subsequence_nil_l {A} (l : list A) : subsequence [] l.
Proof. induction l; constructor; assumption. Qed.

Lemma subsequence_refl {A} (l : list A) : subsequence l l.
Proof. induction l; constructor; assumption. Qed.

Lemma subsequence_In {A} (l1 l2 : list A) x :
  subsequence l1 l2 -> In x l1 -> In x l2.
Proof.
  induction 1 as [|y l1 l2 _ IH|y l1 l2 _ IH]; cbn; intros Hin; auto.
  destruct Hin; auto.
Qed.


Section WithCollaborators.
Context `{Collaborators}.


(** What one call of [addNode] on a present node does. *)
Lemma addNode_outcome (mapId : option string) (n : MmpNode.t) (w : World) :
  match addNode mapId (Some n) w with
  | (w', Fulfilled c) =>
      exists m,
        truthy mapId = Some m
        /\ (MmpNode.detached n = false \/ truthy (MmpNode.nodeParentId n) = None)
        /\ MmpNode.id c = MmpNode.id n /\ MmpNode.nodeMapId c = m
        /\ maps w' = maps w /\ dates w' = dates w /\ warnings w' = warnings w
        /\ ((find (node_has_key (MmpNode.id n) m) (nodes w) = Some c
             /\ nodes w' = nodes w)
            \/ (find (node_has_key (MmpNode.id n) m) (nodes w) = None
                /\ c = MmpNode.with_nodeMapId n m
                /\ nodes w' = nodes w ++ [c]))
  | (w', Rejected e) =>
      w' = w /\ e = NoReason
      /\ (truthy mapId = None
          \/ (MmpNode.detached n = true /\ truthy (MmpNode.nodeParentId n) <> None))
  end.
Proof.
  unfold addNode.
  destruct (MmpNode.detached n) eqn:Ed, (truthy (MmpNode.nodeParentId n)) eqn:Ep;
    cbn [andb];
    try (repeat split; right; split; [reflexivity | discriminate]).
  all: destruct (truthy mapId) as [m|] eqn:Em; [|repeat split; auto].
  all: unfold bind, nodes_findOne.
  all: destruct (find (node_has_key (MmpNode.id n) m) (nodes w)) as [e|] eqn:Ef.
  all: cbn.
  all: exists m.
  all: try (pose proof (find_some _ _ Ef) as [_ Hk]; apply node_has_key_true in Hk;
            destruct Hk as [Hid Hmap]; repeat split; auto).
  all: repeat split; auto; right; repeat split; auto;
       apply upsert_fresh; cbn; assumption.
Qed.

(** The promise chain built by [reduce] runs the ordered loop on what the
    initial promise yields. *)
Lemma fold_left_reducer (mapId : option string) (nodes : list MmpNode.t) :
  forall (p : Promise (list MmpNode.t)) (w : World),
    fold_left (reducer mapId) nodes p w
    = bind p (fun acc => addNodesBatch mapId nodes acc) w.
Proof.
  induction nodes as [|n rest IH]; intros p w; cbn [fold_left addNodesBatch].
  - unfold bind, resolve. destruct (p w) as [w' [a|e]]; reflexivity.
  - rewrite IH. unfold reducer, bind.
    destruct (p w) as [w1 [acc|e]]; [|reflexivity].
    destruct (validatesNodeParentForNode mapId n w1) as [w2 [[|]|e]]; try reflexivity.
    destruct (addNode mapId (Some n) w2) as [w3 [c|e]]; reflexivity.
Qed.

Lemma addNodes_is_addNodesBatch (mapId : option string) (nodes : list MmpNode.t)
    (w : World) :
  addNodes mapId nodes w = addNodesBatch mapId nodes [] w.
Proof. unfold addNodes. cbv zeta. rewrite fold_left_reducer. reflexivity. Qed.

(** What the ordered loop leaves behind.  Rows are only appended
    ([inserted]); one warning is logged per skipped node; and on success the
    result extends the accumulator by the records [new] that [addNode]
    yielded, in processing order. *)
Lemma addNodesBatch_outcome (mapId : option string) (nodes : list MmpNode.t) :
  forall (acc : list MmpNode.t) (w : World),
    match addNodesBatch mapId nodes acc w with
    | (w', r) =>
        maps w' = maps w /\ dates w' = dates w
        /\ exists inserted skipped,
            Repo.nodes w' = Repo.nodes w ++ inserted
            /\ (forall x, In x inserted ->
                          Some (MmpNode.nodeMapId x) = truthy mapId)
            /\ warnings w' = warnings w ++ map (missing_parent_message mapId) skipped
            /\ subsequence skipped nodes
            /\ (forall s, In s skipped ->
                          MmpNode.root s = false /\ MmpNode.detached s = false)
            /\ match r with
               | Fulfilled created =>
                   exists new,
                     created = acc ++ new
                     /\ subsequence inserted new
                     /\ subsequence (map MmpNode.id new) (map MmpNode.id nodes)
                     /\ (List.length new + List.length skipped
                         = List.length nodes)%nat
                     /\ (forall c, In c new ->
                                   In c (Repo.nodes w')
                                   /\ Some (MmpNode.nodeMapId c) = truthy mapId)
               | Rejected e => e = NoReason
               end
    end.
Proof.
  induction nodes as [|n rest IH]; intros acc w; cbn [addNodesBatch].
  - cbn. split; [reflexivity|]. split; [reflexivity|].
    exists [], []. rewrite !app_nil_r.
    split; [reflexivity|]. split; [intros x []|]. split; [reflexivity|].
    split; [constructor|]. split; [intros s []|].
    exists []. rewrite app_nil_r.
    split; [reflexivity|]. split; [constructor|]. split; [constructor|].
    split; [reflexivity|]. intros c [].
  - unfold bind.
    destruct (validatesNodeParentForNode_run mapId n w)
      as (w1 & b & E & Hm1 & Hn1 & Hd1 & Hw1 & Hb).
    rewrite E. destruct b.
    + pose proof (addNode_outcome mapId n w1) as Ha.
      destruct (addNode mapId (Some n) w1) as [w2 [c|e]].
      * destruct Ha as (m & Em & _ & Hid & Hmap & Hm2 & Hd2 & Hw2 & Hcases).
        specialize (IH (acc ++ [c]) w2).
        destruct (addNodesBatch mapId rest (acc ++ [c]) w2) as [w3 r].
        destruct IH as (Hm3 & Hd3 & ins & skp & Hn3 & Hunder & Hw3 & Hsub & Hskp & Hr).
        split; [congruence|]. split; [congruence|].
        assert (Hstep : exists first,
                   Repo.nodes w2 = Repo.nodes w ++ first
                   /\ subsequence first [c] /\ In c (Repo.nodes w2)).
        { destruct Hcases as [[Hf Hsame] | (Hf & Hc & Happ)].
          - exists []. rewrite app_nil_r. split; [congruence|].
            split; [apply subsequence_nil_l|].
            rewrite Hsame. apply (find_some _ _ Hf).
          - exists [c]. split; [congruence|]. split; [apply subsequence_refl|].
            rewrite Happ. apply in_or_app. right. left. reflexivity. }
        destruct Hstep as (first & Hfirst & Hfsub & Hcin).
        exists (first ++ ins), skp.
        split; [rewrite Hn3, Hfirst, app_assoc; reflexivity|].
        split.
        { intros x Hx. apply in_app_or in Hx. destruct Hx as [Hx | Hx].
          - apply (subsequence_In _ _ _ Hfsub) in Hx. destruct Hx as [<- | []].
            rewrite Em, Hmap. reflexivity.
          - apply Hunder. assumption. }
        split; [congruence|].
        split; [apply subsequence_skip; assumption|].
        split; [assumption|].
        destruct r as [created|e]; [|assumption].
        destruct Hr as (new & Hcreated & Hins & Hids & Hlen & Hnew).
        exists (c :: new).
        split; [rewrite Hcreated, <- app_assoc; reflexivity|].
        split.
        { inversion Hfsub as [|x l1 l2 Hnil|x l1 l2 Hnil]; subst.
          - inversion Hnil; subst. cbn. apply subsequence_skip. assumption.
          - inversion Hnil; subst. cbn. apply subsequence_take. assumption. }
        split; [cbn; rewrite Hid; apply subsequence_take; assumption|].
        split; [cbn; lia|].
        intros c' [<- | Hc'].
        -- split; [rewrite Hn3; apply in_or_app; left; assumption|].
           rewrite Em, Hmap. reflexivity.
        -- apply Hnew. assumption.
      * destruct Ha as (-> & -> & _).
        split; [assumption|]. split; [assumption|].
        exists [], []. rewrite !app_nil_r.
        split; [assumption|]. split; [intros x []|]. split; [assumption|].
        split; [apply subsequence_nil_l|]. split; [intros s []|]. reflexivity.
    + assert (Hnot : MmpNode.root n = false /\ MmpNode.detached n = false).
      { split.
        - destruct (MmpNode.root n) eqn:Er; [|reflexivity].
          symmetry. apply Hb. left. reflexivity.
        - destruct (MmpNode.detached n) eqn:Ed; [|reflexivity].
          symmetry. apply Hb. right. left. reflexivity. }
      cbn [warn].
      match goal with
      | |- context [addNodesBatch mapId rest acc ?w2] =>
          specialize (IH acc w2); destruct (addNodesBatch mapId rest acc w2) as [w3 r]
      end.
      cbn in IH.
      destruct IH as (Hm3 & Hd3 & ins & skp & Hn3 & Hunder & Hw3 & Hsub & Hskp & Hr).
      split; [congruence|]. split; [congruence|].
      exists ins, (n :: skp).
      split; [congruence|]. split; [assumption|].
      split; [rewrite Hw3, Hw1, <- app_assoc; reflexivity|].
      split; [apply subsequence_take; assumption|].
      split; [intros s [<- | Hs]; [assumption | apply Hskp; assumption]|].
      destruct r as [created|e]; [|assumption].
      destruct Hr as (new & Hcreated & Hins & Hids & Hlen & Hnew).
      exists new.
      split; [assumption|]. split; [assumption|].
      split; [cbn; apply subsequence_skip; assumption|].
      split; [cbn; lia|]. assumption.
Qed.

(** C2 (amended).  [addNodes] runs the ordered loop: the nodes are taken
    one after the other in input order, each validated against the storage
    as the earlier ones left it.  A node that fails validation (it is then
    neither root nor detached) is not inserted and one warning naming its
    parent, the node and the map is logged for it.  The call only appends
    rows; when it is fulfilled, the result lists, in processing order, the
    record that [addNode] yielded for each node that passed validation:
    every such record is stored under the map and carries the identifier of
    its node, and the appended rows are among them, in order (a record
    that was stored already is returned without being inserted again).
    When [addNode] rejects a validated node the batch is rejected, without
    a reason.  [addNodesFromClient] is [addNodes] on the mapped nodes. *)
Theorem addNodes_sequential (mapId : option string) (nodes : list MmpNode.t)
    (clientNodes : list IMmpClientNode) (w : World) :
  addNodes mapId nodes w = addNodesBatch mapId nodes [] w
  /\ addNodesFromClient mapId clientNodes w
     = addNodes mapId (map (fun x => mapClientNodeToMmpNode x mapId) clientNodes) w
  /\ match addNodes mapId nodes w with
     | (w', r) =>
         maps w' = maps w
         /\ exists inserted skipped,
             Repo.nodes w' = Repo.nodes w ++ inserted
             /\ warnings w'
                = warnings w ++ map (missing_parent_message mapId) skipped
             /\ subsequence skipped nodes
             /\ (forall s, In s skipped ->
                           MmpNode.root s = false /\ MmpNode.detached s = false)
             /\ match r with
                | Fulfilled created =>
                    subsequence inserted created
                    /\ subsequence (map MmpNode.id created) (map MmpNode.id nodes)
                    /\ (List.length created + List.length skipped
                        = List.length nodes)%nat
                    /\ (forall c, In c created ->
                                  In c (Repo.nodes w')
                                  /\ Some (MmpNode.nodeMapId c) = truthy mapId)
                | Rejected e => e = NoReason
                end
     end.
Proof.
  split; [apply addNodes_is_addNodesBatch|]. split; [reflexivity|].
  rewrite addNodes_is_addNodesBatch.
  pose proof (addNodesBatch_outcome mapId nodes [] w) as Hout.
  destruct (addNodesBatch mapId nodes [] w) as [w' r].
  destruct Hout as (Hm & _ & ins & skp & Hn & _ & Hw & Hsub & Hskp & Hr).
  split; [assumption|]. exists ins, skp.
  split; [assumption|]. split; [assumption|].
  split; [assumption|]. split; [assumption|].
  destruct r as [created|e]; [|assumption].
  destruct Hr as (new & Hcreated & Hrest). cbn in Hcreated. subst new.
  exact Hrest.
Qed.

(** Without a usable map identifier nothing reaches the storage: the
    validator answers from the flags alone and [addNode] refuses. *)
Lemma addNodesBatch_without_map (mapId : option string) (nodes : list MmpNode.t) :
  truthy mapId = None ->
  forall (acc : list MmpNode.t) (w : World),
  exists w',
    addNodesBatch mapId nodes acc w
    = (w', if existsb (fun n => MmpNode.root n || MmpNode.detached n) nodes
           then Rejected NoReason else Fulfilled acc)
    /\ maps w' = maps w /\ Repo.nodes w' = Repo.nodes w
    /\ queries w' = queries w.
Proof.
  intros Hmap. induction nodes as [|n rest IH]; intros acc w; cbn [addNodesBatch existsb].
  - exists w. repeat split.
  - unfold bind, validatesNodeParentForNode, addNode, existsNode. rewrite Hmap.
    destruct (MmpNode.root n) eqn:Er; cbn [orb resolve].
    { exists w. destruct (MmpNode.detached n && _); repeat split. }
    destruct (MmpNode.detached n) eqn:Ed; cbn [orb resolve andb].
    { exists w. destruct (truthy (MmpNode.nodeParentId n)); repeat split. }
    destruct (truthy (MmpNode.nodeParentId n)); cbn [resolve warn].
    all: match goal with
         | |- context [addNodesBatch _ _ ?a ?w2] =>
             destruct (IH a w2) as (w' & E & Hm & Hn & Hq)
         end.
    all: exists w'; rewrite E; cbn in *; repeat split; assumption.
Qed.

(** C10 (amended).  The guard of [addNodes] rejects nothing.  On the empty
    list the call is fulfilled with the empty array and the world is left
    as it was.  With a missing or empty map identifier and a non-empty list
    the call still goes through the nodes: it is fulfilled with the empty
    array when no node is root or detached (each node is skipped), and is
    rejected, by [addNode], when one is; either way no row is inserted and
    the storage is not reached. *)
Theorem addNodes_guard_rejects_nothing (mapId : option string)
    (nodes : list MmpNode.t) (w : World) :
  addNodes mapId [] w = (w, Fulfilled [])
  /\ (truthy mapId = None ->
      exists w',
        addNodes mapId nodes w
        = (w', if existsb (fun n => MmpNode.root n || MmpNode.detached n) nodes
               then Rejected NoReason else Fulfilled [])
        /\ maps w' = maps w /\ Repo.nodes w' = Repo.nodes w
        /\ queries w' = queries w).
Proof.
  split; [reflexivity|].
  intros Hmap. rewrite addNodes_is_addNodesBatch.
  apply addNodesBatch_without_map. assumption.
Qed.

Lemma find_unique_row (p : MmpNode.t -> bool) (rows : list MmpNode.t) (e : MmpNode.t) :
  (List.length (filter p rows) <= 1)%nat -> In e rows -> p e = true ->
  find p rows = Some e.
Proof.
  induction rows as [|r rows IH]; cbn; intros Hlen Hin Hp; [destruct Hin|].
  destruct (p r) eqn:Er.
  - destruct Hin as [-> | Hin]; [reflexivity|].
    cbn in Hlen.
    assert (Hin' : In e (filter p rows)) by (apply filter_In; auto).
    destruct (filter p rows); [destruct Hin' | cbn in Hlen; lia].
  - destruct Hin as [-> | Hin]; [congruence|]. apply IH; assumption.
Qed.

Lemma find_none_filter (p : MmpNode.t -> bool) (rows : list MmpNode.t) :
  find p rows = None -> filter p rows = [].
Proof.
  induction rows as [|r rows IH]; cbn; [reflexivity|].
  destruct (p r); [discriminate | assumption].
Qed.

Lemma find_some_filter (p : MmpNode.t -> bool) (rows : list MmpNode.t) e :
  find p rows = Some e -> (1 <= List.length (filter p rows))%nat.
Proof.
  induction rows as [|r rows IH]; cbn; [discriminate|].
  destruct (p r); cbn; intros E; [lia | auto].
Qed.

(** C5 (amended).  For a node that passes the guards of [addNode] (a usable
    map identifier, and not both detached and carrying a parent) on a table
    with at most one row of its key: [addNode] is fulfilled; when a row
    with the node's identifier is stored under the map, that row is the
    result, unchanged, and the table is left as it was; afterwards exactly
    one row has the key, and a second call with that identifier is
    fulfilled with the same record and inserts nothing. *)
Theorem addNode_idempotent (mapId : option string) (m : string) (n : MmpNode.t)
    (w : World) :
  truthy mapId = Some m ->
  MmpNode.detached n = false \/ truthy (MmpNode.nodeParentId n) = None ->
  (rows_with_key (MmpNode.id n) m w <= 1)%nat ->
  exists w1 c,
    addNode mapId (Some n) w = (w1, Fulfilled c)
    /\ (forall e, In e (Repo.nodes w) -> MmpNode.id e = MmpNode.id n ->
                  MmpNode.nodeMapId e = m ->
                  c = e /\ Repo.nodes w1 = Repo.nodes w)
    /\ rows_with_key (MmpNode.id n) m w1 = 1%nat
    /\ forall n',
        MmpNode.id n' = MmpNode.id n ->
        MmpNode.detached n' = false \/ truthy (MmpNode.nodeParentId n') = None ->
        exists w2,
          addNode mapId (Some n') w1 = (w2, Fulfilled c)
          /\ Repo.nodes w2 = Repo.nodes w1 /\ maps w2 = maps w1.
Proof.
  intros Hmap Hguard Hpk.
  pose proof (addNode_outcome mapId n w) as Ha.
  destruct (addNode mapId (Some n) w) as [w1 [c|e]].
  2: { destruct Ha as (_ & _ & [Hbad | [Hd Hp]]); [congruence|].
       destruct Hguard; congruence. }
  destruct Ha as (m' & Em & _ & Hid & Hmapc & Hm1 & _ & _ & Hcases).
  assert (m' = m) as -> by congruence.
  exists w1, c. split; [reflexivity|].
  assert (Hfound : find (node_has_key (MmpNode.id n) m) (Repo.nodes w1) = Some c
                   /\ rows_with_key (MmpNode.id n) m w1 = 1%nat).
  { unfold rows_with_key in *.
    destruct Hcases as [[Hf Hsame] | (Hf & Hc & Happ)].
    - rewrite Hsame. split; [assumption|].
      pose proof (find_some_filter _ _ _ Hf). lia.
    - rewrite Happ. split.
      + clear - Hf Hid Hmapc. induction (Repo.nodes w) as [|r rows IH]; cbn in *.
        * replace (node_has_key (MmpNode.id n) m c) with true; [reflexivity|].
          symmetry. apply node_has_key_true. auto.
        * destruct (node_has_key (MmpNode.id n) m r); [discriminate | auto].
      + rewrite filter_app, (find_none_filter _ _ Hf). cbn.
        replace (node_has_key (MmpNode.id n) m c) with true; [reflexivity|].
        symmetry. apply node_has_key_true. auto. }
  destruct Hfound as [Hfind Hone].
  split; [|split; [exact Hone|]].
  - intros e Hin Heid Hemap.
    assert (Hfe : find (node_has_key (MmpNode.id n) m) (Repo.nodes w) = Some e).
    { apply find_unique_row; [exact Hpk | assumption|].
      apply node_has_key_true. auto. }
    destruct Hcases as [[Hf Hsame] | (Hf & _)]; [|congruence].
    split; [congruence | assumption].
  - intros n' Hid' Hguard'.
    pose proof (addNode_outcome mapId n' w1) as Hb.
    destruct (addNode mapId (Some n') w1) as [w2 [c'|e]].
    2: { destruct Hb as (_ & _ & [Hbad | [Hd Hp]]); [congruence|].
         destruct Hguard'; congruence. }
    destruct Hb as (m' & Em' & _ & _ & _ & Hm2 & _ & _ & Hcases').
    assert (m' = m) as -> by congruence. rewrite Hid' in Hcases'.
    destruct Hcases' as [[Hf Hsame] | (Hf & _)]; [|congruence].
    exists w2. split; [congruence|]. split; assumption.
Qed.

End WithCollaborators.
End InsertFacts.

(* ================================================================= *)
(** ** The service: rebuilding a map *)

Module RebuildFacts.
Import Repo Service RepoFacts GuardFacts InsertFacts.
Import Spec.

Section WithCollaborators.
Context `{Collaborators}.

(** [findMap] never writes to the tables. *)
Lemma findMap_tables (uuid : string) (w : World) :
  match findMap uuid w with
  | (w', _) => maps w' = maps w /\ nodes w' = nodes w
  end.
Proof. unfold findMap. destruct (uuidValidate uuid); cbn; split; reflexivity. Qed.

End WithCollaborators.
End RebuildFacts.

(* ================================================================= *)
(** ** The service: deletion deadlines and the sweep *)

Module SweepFacts.
Import JSDate DateFacts Repo Service RepoFacts GuardFacts.
Import Spec.

Lemma sql_max_newest ns :
  match sql_max (map MmpNode.lastModified ns) with
  | None => ns = []
  | Some t => newest t ns
  end.
Proof.
  pose proof (sql_max_spec (map MmpNode.lastModified ns)) as Hs.
  destruct (sql_max _) as [t|].
  - destruct Hs as [Hin Hmax]. split; [assumption|].
    intros n Hn. apply Hmax. apply in_map. assumption.
  - destruct ns; [reflexivity | discriminate].
Qed.



(** *** The grouped subquery *)


Lemma group_put_other k k' v groups :
  k' <> k ->
  filter (group_of k') (group_put k v groups) = filter (group_of k') groups.
Proof.
  intros Hne. induction groups as [|[k1 t1] groups IH]; cbn.
  - unfold group_of. cbn. destruct (String.eqb_spec k k'); [congruence | reflexivity].
  - destruct (String.eqb_spec k1 k) as [-> | Hk]; cbn.
    + unfold group_of. cbn.
      destruct (String.eqb_spec k k'); [congruence | reflexivity].
    + rewrite IH. reflexivity.
Qed.

Lemma group_put_same k v groups :
  filter (group_of k) (group_put k v groups)
  = match filter (group_of k) groups with
    | [] => [(k, v)]
    | (k1, t) :: rest => (k1, Z.max t v) :: rest
    end.
Proof.
  induction groups as [|[k1 t1] groups IH]; cbn.
  - unfold group_of. cbn. rewrite String.eqb_refl. reflexivity.
  - unfold group_of at 2. cbn [fst].
    destruct (String.eqb k1 k) eqn:Ek; cbn.
    + unfold group_of at 1. cbn [fst]. rewrite Ek. reflexivity.
    + unfold group_of at 1. cbn [fst]. rewrite Ek. exact IH.
Qed.

Lemma sql_max_snoc l v :
  sql_max (l ++ [v])
  = Some (match sql_max l with None => v | Some t => Z.max t v end).
Proof.
  unfold sql_max. rewrite fold_left_app. cbn.
  destruct (fold_left _ l None); reflexivity.
Qed.

(** The subquery has, for each map identifier, one row with the newest
    modification time of the nodes filed under it, and no row when there
    is none. *)
Lemma lastmodifiednode_group (ns : list MmpNode.t) (k : string) :
  filter (group_of k) (lastmodifiednode ns)
  = match sql_max (map MmpNode.lastModified (filter (node_in_map k) ns)) with
    | None => []
    | Some t => [(k, t)]
    end.
Proof.
  induction ns as [|n ns IH] using rev_ind; [reflexivity|].
  unfold lastmodifiednode in *. rewrite fold_left_app. cbn [fold_left].
  rewrite filter_app. cbn [filter].
  destruct (node_in_map k n) eqn:Ek.
  - apply node_in_map_true in Ek. rewrite Ek.
    rewrite group_put_same, IH, map_app. cbn [map]. rewrite sql_max_snoc.
    destruct (sql_max _); reflexivity.
  - rewrite group_put_other.
    + rewrite IH, app_nil_r. reflexivity.
    + intros ->. unfold node_in_map in Ek. rewrite String.eqb_refl in Ek.
      discriminate.
Qed.

(** Each map meets at most one row of the subquery, so the join is the
    maps, each with its newest node time. *)
Lemma left_join_lastmodifiednode (w : World) :
  left_join (maps w) (lastmodifiednode (nodes w))
  = map (fun m => (m, sql_max (map MmpNode.lastModified (owned w m)))) (maps w).
Proof.
  unfold left_join. induction (maps w) as [|m ms IH]; [reflexivity|].
  cbn [flat_map]. rewrite IH. clear IH.
  change (map ?f (m :: ms)) with (f m :: map f ms).
  change (fun g : string * Z => String.eqb (fst g) (MmpMap.id m))
    with (group_of (MmpMap.id m)).
  rewrite lastmodifiednode_group. fold (owned w m).
  destruct (sql_max _); reflexivity.
Qed.

(** On a map joined with its newest node time the condition is decided by
    the time that the retention counts from, and raises when the sum is
    no timestamp. *)
Lemma outdated_row_outdated days today w m :
  outdated_row days today (m, sql_max (map MmpNode.lastModified (owned w m)))
  = if deadline_in_range days w m then Some (outdated days today w m) else None.
Proof.
  unfold outdated_row, outdated, deadline_in_range, deadline_source, plus_days.
  cbv zeta. rewrite (Z.mul_comm msPerDay days).
  destruct (sql_max _) as [t|].
  - destruct ((pg_timestamp_min <=? t + days * msPerDay)
              && (t + days * msPerDay <? pg_timestamp_end)); reflexivity.
  - destruct ((pg_timestamp_min <=? MmpMap.lastModified m + days * msPerDay)
              && (MmpMap.lastModified m + days * msPerDay <? pg_timestamp_end));
      reflexivity.
Qed.

Lemma select_rows_joined days today w (ms : list MmpMap.t) :
  select_rows (outdated_row days today)
    (map (fun m => (m, sql_max (map MmpNode.lastModified (owned w m)))) ms)
  = if forallb (deadline_in_range days w) ms
    then Some (map (fun m => (m, sql_max (map MmpNode.lastModified (owned w m))))
                   (filter (outdated days today w) ms))
    else None.
Proof.
  induction ms as [|m ms IH]; [reflexivity|].
  cbn [map select_rows forallb filter]. rewrite outdated_row_outdated, IH.
  destruct (deadline_in_range days w m); cbn [andb]; [|reflexivity].
  destruct (outdated days today w m), (forallb _ ms); reflexivity.
Qed.

(** The select: the identifiers of the maps whose retention has elapsed
    when the sweep is within the ranges of the database, a rejection
    otherwise. *)
Lemma maps_selectOutdated_run afterDays today (w : World) :
  maps_selectOutdated afterDays today w
  = (record (MapSelectOutdated afterDays today) w,
     if sweep_in_range afterDays w
     then Fulfilled (map MmpMap.id (filter (outdated afterDays today w) (maps w)))
     else Rejected QueryFailedError).
Proof.
  unfold maps_selectOutdated, sweep_in_range, interval_days. f_equal.
  destruct ((pg_int32_min <=? afterDays) && (afterDays <=? pg_int32_max));
    cbn [andb]; [|reflexivity].
  rewrite left_join_lastmodifiednode, select_rows_joined.
  destruct (forallb _ (maps w)); [|reflexivity].
  rewrite map_map. reflexivity.
Qed.

(** The range condition reads the two tables only. *)
Lemma sweep_in_range_tables days (w1 w2 : World) :
  maps w1 = maps w2 -> nodes w1 = nodes w2 ->
  sweep_in_range days w1 = sweep_in_range days w2.
Proof.
  intros Hm Hn. unfold sweep_in_range. rewrite Hm. f_equal. clear Hm.
  induction (maps w2) as [|m ms IH]; [reflexivity|].
  cbn [forallb]. rewrite IH.
  unfold deadline_in_range, deadline_source, owned. rewrite Hn. reflexivity.
Qed.

Lemma sweep_in_range_spec days (w : World) :
  sweep_in_range days w = true
  <-> (pg_int32_min <= days <= pg_int32_max
       /\ forall m, In m (maps w) ->
            pg_timestamp_min <= deadline_source w m + days * msPerDay
                             < pg_timestamp_end).
Proof.
  unfold sweep_in_range. rewrite !andb_true_iff, forallb_forall.
  rewrite !Z.leb_le. unfold deadline_in_range.
  split.
  - intros [Hd Hall]. split; [lia|]. intros m Hm. specialize (Hall m Hm).
    rewrite andb_true_iff, Z.leb_le, Z.ltb_lt in Hall. exact Hall.
  - intros [Hd Hall]. split; [lia|]. intros m Hm. specialize (Hall m Hm).
    rewrite andb_true_iff, Z.leb_le, Z.ltb_lt. exact Hall.
Qed.

Lemma id_in_selected (ms : list MmpMap.t) (p : MmpMap.t -> bool) (m : MmpMap.t) :
  NoDup (map MmpMap.id ms) -> In m ms ->
  id_in (map MmpMap.id (filter p ms)) (MmpMap.id m) = p m.
Proof.
  intros Hnd Hin. unfold id_in.
  destruct (p m) eqn:Ep.
  - apply existsb_exists. exists (MmpMap.id m). split; [|apply String.eqb_refl].
    apply in_map. apply filter_In. auto.
  - apply not_true_is_false. intros Hex.
    apply existsb_exists in Hex. destruct Hex as (i & Hi & Heq).
    apply String.eqb_eq in Heq. subst i.
    apply in_map_iff in Hi. destruct Hi as (m' & Hid & Hm').
    apply filter_In in Hm'. destruct Hm' as [Hin' Hp'].
    assert (m' = m); [|congruence].
    clear - Hnd Hin Hin' Hid.
    induction ms as [|x ms IH]; [destruct Hin|].
    cbn in Hnd. inversion Hnd as [|? ? Hnotin Hnd']; subst.
    destruct Hin as [-> | Hin], Hin' as [-> | Hin']; auto.
    + exfalso. apply Hnotin. rewrite <- Hid. apply in_map. assumption.
    + exfalso. apply Hnotin. rewrite Hid. apply in_map. assumption.
Qed.

Lemma filter_ext_in_maps (p q : MmpMap.t -> bool) (ms : list MmpMap.t) :
  (forall m, In m ms -> p m = q m) -> filter p ms = filter q ms.
Proof.
  induction ms as [|m ms IH]; cbn; intros Hpq; [reflexivity|].
  rewrite (Hpq m) by auto. rewrite IH by auto. reflexivity.
Qed.


Lemma filter_none_keeps_all (p : MmpMap.t -> bool) (ms : list MmpMap.t) :
  filter p ms = [] -> filter (fun m => negb (p m)) ms = ms.
Proof.
  induction ms as [|m ms IH]; cbn; [reflexivity|].
  destruct (p m); [discriminate|]. cbn. intros E. f_equal. apply IH. exact E.
Qed.

Section WithCollaborators.
Context `{Collaborators}.

(** What the sweep computes when it is within the ranges of the database. *)
Lemma deleteOutdatedMaps_run (afterDays : option Z) (w : World) :
  NoDup (map MmpMap.id (maps w)) ->
  let days := match afterDays with Some d => d | None => 30 end in
  sweep_in_range days w = true ->
  exists w',
    deleteOutdatedMaps afterDays w
    = (w', Fulfilled (Z.of_nat (List.length
                                  (filter (outdated days (clock w) w) (maps w)))))
    /\ maps w' = filter (fun m => negb (outdated days (clock w) w m)) (maps w)
    /\ (filter (outdated days (clock w) w) (maps w) = [] -> nodes w' = nodes w).
Proof.
  intros Hnd. cbv zeta.
  set (days := match afterDays with Some d => d | None => 30 end).
  intros Hrange.
  unfold deleteOutdatedMaps. fold days.
  unfold bind at 1. unfold newDateNow.
  unfold bind at 1. unfold date_parameter. cbn [with_dates dates].
  unfold getTime. rewrite thisTimeValue_new_fresh.
  unfold bind. rewrite maps_selectOutdated_run.
  rewrite (sweep_in_range_tables days _ w) by reflexivity. rewrite Hrange.
  cbn [maps nodes record with_dates].
  change (outdated days (clock w) _) with (outdated days (clock w) w).
  set (today := clock w).
  set (sel := filter (outdated days today w) (maps w)).
  rewrite length_map.
  destruct (Nat.ltb 0 (List.length sel)) eqn:Epos.
  - unfold maps_deleteIn. cbn [maps nodes record with_maps with_nodes with_dates].
    eexists. split; [|split].
    + f_equal. f_equal. f_equal. f_equal. subst sel.
      apply filter_ext_in_maps. intros m Hin.
      apply id_in_selected; assumption.
    + cbn. apply filter_ext_in_maps. intros m Hin.
      subst sel. rewrite id_in_selected by assumption. reflexivity.
    + intros Hnil. subst sel. rewrite Hnil in Epos. discriminate.
  - apply Nat.ltb_ge in Epos.
    assert (Hnil : sel = []) by (apply length_zero_iff_nil; lia).
    rewrite Hnil. eexists. split; [reflexivity|]. cbn. split; [|reflexivity].
    symmetry. apply filter_none_keeps_all. exact Hnil.
Qed.

(** Outside the ranges the select is rejected, and the sweep with it,
    before anything is deleted. *)
Lemma deleteOutdatedMaps_rejected (afterDays : option Z) (w : World) :
  let days := match afterDays with Some d => d | None => 30 end in
  sweep_in_range days w = false ->
  exists w',
    deleteOutdatedMaps afterDays w = (w', Rejected QueryFailedError)
    /\ maps w' = maps w /\ nodes w' = nodes w /\ clock w' = clock w
    /\ queries w' = (queries w ++ [MapSelectOutdated days (clock w)])%list.
Proof.
  cbv zeta.
  set (days := match afterDays with Some d => d | None => 30 end).
  intros Hrange.
  unfold deleteOutdatedMaps. fold days.
  unfold bind at 1. unfold newDateNow.
  unfold bind at 1. unfold date_parameter. cbn [with_dates dates].
  unfold getTime. rewrite thisTimeValue_new_fresh.
  unfold bind. rewrite maps_selectOutdated_run.
  rewrite (sweep_in_range_tables days _ w) by reflexivity. rewrite Hrange.
  eexists. split; [reflexivity|]. cbn. auto.
Qed.


End WithCollaborators.
End SweepFacts.

Module DeadlineFacts.
Import JSDate DateFacts Repo Service RepoFacts GuardFacts SweepFacts RetentionFacts.
Import Spec.

Section WithCollaborators.
Context `{Collaborators}.

Lemma deadline_source_spec (w : World) (m : MmpMap.t) :
  newest (deadline_source w m) (owned w m)
  \/ (owned w m = [] /\ deadline_source w m = MmpMap.lastModified m).
Proof.
  unfold deadline_source. pose proof (sql_max_newest (owned w m)) as Hs.
  destruct (sql_max _); [left | right]; auto.
Qed.

Lemma getDeletedAt_run (m : MmpMap.t) (afterDays : Z) (w : World) :
  exists w' r,
    getDeletedAt (Some m) afterDays w = (w', Fulfilled r)
    /\ maps w' = maps w /\ nodes w' = nodes w
    /\ queries w' = queries w ++ [NodeMaxLastModified (MmpMap.id m)]
    /\ (let (h1, d) := newDate (Some (deadline_source w m)) (dates w) in
        (dates w', r) = calculcateDeletedAt d afterDays h1)
    /\ (Z.abs (deadline_source w m) <= maxTime ->
        thisTimeValue (dates w') r
        = TimeClip (UTC LocalTZA (LocalTime LocalTZA (deadline_source w m)
                                  + afterDays * msPerDay))).
Proof.
  unfold getDeletedAt, bind, nodes_maxLastModified, on_dates.
  fold (owned w m). fold (deadline_source w m).
  set (src := deadline_source w m).
  cbn [dates record with_dates newDate].
  unfold newDate. cbn [dates record with_dates].
  destruct (calculcateDeletedAt (List.length (dates w)) afterDays
              (dates w ++ [TimeClip src])) as [h2 r] eqn:Ecalc.
  eexists. eexists. split; [reflexivity|]. cbn.
  split; [reflexivity|]. split; [reflexivity|]. split; [reflexivity|].
  split; [reflexivity|].
  intros Hvalid.
  destruct (calculcateDeletedAt_run (dates w ++ [TimeClip src])
              (List.length (dates w)) afterDays src) as (h' & E & _ & Hv).
  - rewrite length_app. cbn. lia.
  - rewrite thisTimeValue_new_fresh. apply TimeClip_in_range. assumption.
  - assumption.
  - rewrite Ecalc in E. inversion E; subst. exact Hv.
Qed.

(** C7.  [getDeletedAt] on a missing map is rejected without a reason,
    before anything else happens.  On a map it is fulfilled with a Date
    that the retention calculator built from a Date holding the most recent
    modification time among the map's nodes or, when the map owns no node,
    the map's own; for a valid such time the deadline is that local time
    moved by [afterDays] days (clipped to the range of Date).
    [exportMapToClient] on a stored map with no nodes hands the client
    mapping the deadline counted from the map's own last modification. *)
Theorem getDeletedAt_counts_from_newest (map : option MmpMap.t) (afterDays : Z)
    (uuid : string) (w : World) :
  match map with
  | None => getDeletedAt None afterDays w = (w, Rejected NoReason)
  | Some m =>
      exists source,
        (newest source (owned w m)
         \/ (owned w m = [] /\ source = MmpMap.lastModified m))
        /\ exists w' r,
            getDeletedAt (Some m) afterDays w = (w', Fulfilled r)
            /\ maps w' = maps w /\ nodes w' = nodes w
            /\ (let (h1, d) := newDate (Some source) (dates w) in
                (dates w', r) = calculcateDeletedAt d afterDays h1)
            /\ (Z.abs source <= maxTime ->
                thisTimeValue (dates w') r
                = TimeClip (UTC LocalTZA (LocalTime LocalTZA source
                                          + afterDays * msPerDay)))
  end
  /\ (forall m,
        uuidValidate uuid = true ->
        find (map_has_id uuid) (maps w) = Some m ->
        owned w m = [] ->
        exists w' r,
          exportMapToClient uuid w
          = (w', Fulfilled (mapMmpMapToClient m [] r deleteAfterDays))
          /\ (let (h1, d) := newDate (Some (MmpMap.lastModified m)) (dates w) in
              (dates w', r) = calculcateDeletedAt d deleteAfterDays h1)
          /\ (Z.abs (MmpMap.lastModified m) <= maxTime ->
              thisTimeValue (dates w') r
              = TimeClip (UTC LocalTZA (LocalTime LocalTZA (MmpMap.lastModified m)
                                        + deleteAfterDays * msPerDay)))).
Proof.
  split.
  - destruct map as [m|]; [|reflexivity].
    exists (deadline_source w m). split; [apply deadline_source_spec|].
    destruct (getDeletedAt_run m afterDays w)
      as (w' & r & E & Hm & Hn & _ & Hcalc & Hv).
    exists w', r. auto.
  - intros m Hvalid Hfind Hempty.
    unfold exportMapToClient, bind at 1, findMap. rewrite Hvalid. cbn [negb].
    unfold maps_findOne. rewrite Hfind.
    unfold bind at 1, findNodes, nodes_getManyByMap.
    cbn [nodes record]. fold (owned w m). rewrite Hempty. cbn [order_by_orderNumber fold_right].
    unfold bind.
    match goal with
    | |- context [getDeletedAt (Some m) deleteAfterDays ?w0] =>
        destruct (getDeletedAt_run m deleteAfterDays w0)
          as (w' & r & E & _ & _ & _ & Hcalc & Hv);
        assert (Hsrc : deadline_source w0 m = MmpMap.lastModified m)
          by (unfold deadline_source, owned; cbn [nodes record];
              fold (owned w m); rewrite Hempty; reflexivity);
        rewrite Hsrc in Hcalc, Hv; cbn [dates record] in Hcalc
    end.
    exists w', r. rewrite E. cbn [resolve]. auto.
Qed.

End WithCollaborators.
End DeadlineFacts.

(* ================================================================= *)
(** ** The service on the sample deployment *)

Module Runs.
Import JSDate Repo Service Sample.
Import Spec RepoFacts GuardFacts InsertFacts RebuildFacts SweepFacts DeadlineFacts.
#[local] Existing Instance Sample.deployment.
Local Open Scope string_scope.

(** *** Batch insert *)

Lemma addNodes_child_before_parent :
  let (w', r) := addNodes (Some mapA) [childC; rootP] fresh_map in
  r = Fulfilled [stored mapA rootP]
  /\ nodes w' = [stored mapA rootP]
  /\ warnings w'
     = ["Parent with id P does not exist for node c and map 11111111-1111-4111-8111-111111111111"].
Proof. vm_compute. repeat split. Qed.

Lemma addNodes_parent_before_child :
  let (w', r) := addNodes (Some mapA) [rootP; childC] fresh_map in
  r = Fulfilled [stored mapA rootP; stored mapA childC]
  /\ nodes w' = [stored mapA rootP; stored mapA childC]
  /\ warnings w' = [].
Proof. vm_compute. repeat split. Qed.

(** The claim as stated fails when a submitted node is stored already: its
    record is returned although nothing is inserted. *)
Lemma addNodes_returns_stored_record :
  let (w', r) := addNodes (Some mapA) [rootP] with_root in
  r = Fulfilled [stored mapA rootP]
  /\ nodes w' = nodes with_root
  /\ nodes w' <> (nodes with_root ++ [stored mapA rootP])%list.
Proof. vm_compute. repeat split. discriminate. Qed.

(** The claim as stated fails for an empty map identifier and a root node:
    the call is rejected. *)
Lemma addNodes_empty_map_id_root_rejected :
  addNodes (Some EmptyString) [rootP] fresh_map = (fresh_map, Rejected NoReason)
  /\ forall created, addNodes (Some EmptyString) [rootP] fresh_map
                     <> (fresh_map, Fulfilled created).
Proof. split; [reflexivity|]. intros created. vm_compute. discriminate. Qed.

(** *** [addNode] *)

(** The claim as stated fails for a stored identifier submitted detached and
    with a parent: the call is rejected instead of returning the record. *)
Lemma addNode_stored_id_rejected :
  In (stored mapA rootP) (nodes with_root)
  /\ MmpNode.id (stored mapA rootP) = MmpNode.id detachedWithParent
  /\ addNode (Some mapA) (Some detachedWithParent) with_root
     = (with_root, Rejected NoReason)
  /\ addNode (Some mapA) (Some detachedWithParent) with_root
     <> (with_root, Fulfilled (stored mapA rootP)).
Proof. vm_compute. repeat split; auto. discriminate. Qed.

Lemma addNode_idempotent_witness :
  exists w1 c,
    addNode (Some mapA) (Some rootP) fresh_map = (w1, Fulfilled c)
    /\ rows_with_key "P" mapA w1 = 1%nat
    /\ exists w2,
        addNode (Some mapA) (Some rootP) w1 = (w2, Fulfilled c)
        /\ nodes w2 = nodes w1.
Proof.
  destruct (addNode_idempotent (Some mapA) mapA rootP fresh_map
              eq_refl (or_introl eq_refl) (Nat.le_0_l 1))
    as (w1 & c & E & _ & Hone & Hagain).
  exists w1, c. split; [exact E|]. split; [exact Hone|].
  destruct (Hagain rootP eq_refl (or_introl eq_refl)) as (w2 & E2 & Hn & _).
  exists w2. split; assumption.
Defined.

Lemma addNode_rejects_invalid_witness :
  exists e,
    addNode (Some mapA) (Some detachedWithParent) with_root
    = (with_root, Rejected e).
Proof.
  apply addNode_rejects_invalid. right. right.
  exists detachedWithParent. split; [reflexivity|]. split; [reflexivity|].
  cbn. discriminate.
Defined.

(** *** The tree validator *)

Lemma with_root_filed : filed_under_maps with_root.
Proof.
  intros n [<- | []]. cbn. discriminate.
Defined.

Lemma validatesNodeParentForNode_iff_witness :
  exists w',
    validatesNodeParentForNode (Some mapA) childC with_root = (w', Fulfilled true).
Proof.
  destruct (validatesNodeParentForNode_iff (Some mapA) childC with_root
              with_root_filed) as [(w' & b & E & _ & _ & Hb) _].
  exists w'. rewrite E. f_equal. f_equal. apply Hb.
  right. right. exists "P". split; [reflexivity|]. split; [discriminate|].
  exists (stored mapA rootP). split; [left; reflexivity|]. split; reflexivity.
Defined.

(** *** Rebuilding a map *)

Lemma updateMap_replaces_nodes :
  let (w', r) := updateMap {| uuid := mapA; data := [nodeC] |} two_nodes in
  r = Fulfilled (Some (mk_map mapA (days 40)))
  /\ nodes w' = [stored mapB rootP; stored mapA nodeC]
  /\ snd (findNodes mapA w') = Fulfilled [stored mapA nodeC].
Proof. vm_compute. repeat split. Qed.

(** *** The sweep *)


Lemma deleteOutdatedMaps_three_maps :
  let (w', r) := deleteOutdatedMaps (Some 30) three_maps in
  r = Fulfilled 2 /\ map MmpMap.id (maps w') = [mapB].
Proof. vm_compute. repeat split. Qed.


(** *** Deletion deadlines *)

Lemma exportMapToClient_empty_map :
  let (w', r) := exportMapToClient mapC three_maps in
  r = Fulfilled {| uuid := mapC; data := [] |}
  /\ thisTimeValue (dates w') 1%nat = Some (days 99).
Proof. vm_compute. repeat split. Qed.

End Runs.

(* ================================================================= *)
(** ** Invariants of the nodes table and lookups after inserts *)

Module InvariantFacts.
Import Repo Service RepoFacts GuardFacts InsertFacts.
Import Spec SpecMore.

Lemma find_none_key_absent id mapId rows :
  find (node_has_key id mapId) rows = None ->
  ~ In (mapId, id) (map node_key rows).
Proof.
  intros Hf Hin. apply in_map_iff in Hin. destruct Hin as (r & Hk & Hr).
  pose proof (find_none _ _ Hf r Hr) as Hno.
  unfold node_key in Hk. inversion Hk as [[Hm Hi]].
  assert (node_has_key id mapId r = true) by (apply node_has_key_true; auto).
  congruence.
Qed.

Lemma NoDup_snoc {A} (l : list A) (x : A) :
  NoDup l -> ~ In x l -> NoDup (l ++ [x]).
Proof.
  intros Hnd Hx. induction Hnd as [|y l Hy Hnd IH]; cbn.
  - constructor; [intros []|constructor].
  - constructor.
    + rewrite in_app_iff. intros [Hin | [-> | []]]; [auto|].
      apply Hx. left. reflexivity.
    + apply IH. intros Hin. apply Hx. right. assumption.
Qed.

(** Both invariants speak of the nodes table only. *)
Lemma invariants_same_nodes (w v : World) :
  nodes v = nodes w ->
  node_keys_distinct w /\ filed_under_maps w ->
  node_keys_distinct v /\ filed_under_maps v.
Proof.
  unfold node_keys_distinct, filed_under_maps. intros ->. auto.
Qed.

Lemma addNode_step_invariants (mapId : option string) (n : MmpNode.t) (w : World) :
  node_keys_distinct w /\ filed_under_maps w ->
  node_keys_distinct (fst (addNode mapId (Some n) w))
  /\ filed_under_maps (fst (addNode mapId (Some n) w)).
Proof.
  intros [Hnd Hfiled].
  pose proof (addNode_outcome mapId n w) as Ha.
  destruct (addNode mapId (Some n) w) as [w' [c|e]]; cbn [fst].
  - destruct Ha as (m & Em & _ & Hid & Hmap & _ & _ & _ & Hcases).
    destruct Hcases as [[_ Hsame] | (Hf & Hc & Happ)].
    + apply (invariants_same_nodes w w' Hsame). auto.
    + apply truthy_Some in Em. destruct Em as [_ Hne].
      unfold node_keys_distinct, filed_under_maps. rewrite Happ. split.
      * rewrite map_app. cbn [map]. apply NoDup_snoc; [exact Hnd|].
        unfold node_key at 1. rewrite Hid, Hmap.
        apply find_none_key_absent. assumption.
      * intros x Hx. apply in_app_or in Hx. destruct Hx as [Hx | [<- | []]].
        -- apply Hfiled. assumption.
        -- rewrite Hmap. assumption.
  - destruct Ha as (-> & _). auto.
Qed.

Section WithCollaborators.
Context `{Collaborators}.

(** X1.  [addNode] keeps the primary keys of the nodes table distinct and
    never files a row under an empty map identifier, whatever its outcome;
    it does not touch the maps table. *)
Theorem addNode_keeps_invariants (mapId : option string) (node : option MmpNode.t)
    (w : World) :
  node_keys_distinct w ->
  filed_under_maps w ->
  let w' := fst (addNode mapId node w) in
  node_keys_distinct w' /\ filed_under_maps w' /\ maps w' = maps w.
Proof.
  intros Hnd Hfiled. cbv zeta. destruct node as [n|]; [|cbn; auto].
  destruct (addNode_step_invariants mapId n w (conj Hnd Hfiled)) as [H1 H2].
  split; [exact H1|]. split; [exact H2|].
  pose proof (addNode_outcome mapId n w) as Ha.
  destruct (addNode mapId (Some n) w) as [w' [c|e]]; cbn [fst].
  - destruct Ha as (m & _ & _ & _ & _ & Hm & _). exact Hm.
  - destruct Ha as (-> & _). reflexivity.
Qed.

Lemma addNodesBatch_invariants (mapId : option string) (ns : list MmpNode.t) :
  forall (acc : list MmpNode.t) (w : World),
    node_keys_distinct w /\ filed_under_maps w ->
    node_keys_distinct (fst (addNodesBatch mapId ns acc w))
    /\ filed_under_maps (fst (addNodesBatch mapId ns acc w)).
Proof.
  induction ns as [|n rest IH]; intros acc w Hinv; cbn [addNodesBatch].
  - exact Hinv.
  - unfold bind.
    destruct (validatesNodeParentForNode_run mapId n w)
      as (w1 & b & E & _ & Hn1 & _ & _ & _).
    rewrite E.
    pose proof (invariants_same_nodes w w1 Hn1 Hinv) as Hinv1.
    destruct b.
    + pose proof (addNode_step_invariants mapId n w1 Hinv1) as Hinv2.
      destruct (addNode mapId (Some n) w1) as [w2 [c|e]]; cbn [fst] in Hinv2.
      * apply IH. exact Hinv2.
      * exact Hinv2.
    + cbn [warn]. apply IH. apply (invariants_same_nodes w1); [reflexivity | exact Hinv1].
Qed.

(** X2.  The batch insert keeps the primary keys of the nodes table
    distinct and files no row under an empty map identifier, also when it
    is rejected half way; every row it adds is filed under the given map. *)
Theorem addNodes_keeps_invariants (mapId : option string) (ns : list MmpNode.t)
    (w : World) :
  node_keys_distinct w ->
  filed_under_maps w ->
  let w' := fst (addNodes mapId ns w) in
  node_keys_distinct w' /\ filed_under_maps w'
  /\ exists inserted,
      nodes w' = nodes w ++ inserted
      /\ forall x, In x inserted -> Some (MmpNode.nodeMapId x) = truthy mapId.
Proof.
  intros Hnd Hfiled. cbv zeta. rewrite addNodes_is_addNodesBatch.
  destruct (addNodesBatch_invariants mapId ns [] w (conj Hnd Hfiled)) as [H1 H2].
  split; [exact H1|]. split; [exact H2|].
  pose proof (addNodesBatch_outcome mapId ns [] w) as Hout.
  destruct (addNodesBatch mapId ns [] w) as [w' r]. cbn [fst].
  destruct Hout as (_ & _ & ins & skp & Hn & Hunder & _).
  exists ins. split; assumption.
Qed.

(** X3.  A node that [addNode] accepted can be looked up: the existence
    probe finds its identifier under the map, and a node naming it as its
    parent passes the tree validator. *)
Theorem addNode_then_lookup (mapId : option string) (n child : MmpNode.t)
    (w w' : World) (c : MmpNode.t) :
  MmpNode.id n <> EmptyString ->
  addNode mapId (Some n) w = (w', Fulfilled c) ->
  MmpNode.nodeParentId child = Some (MmpNode.id n) ->
  (exists w'', existsNode mapId (Some (MmpNode.id n)) w' = (w'', Fulfilled true))
  /\ (exists w'', validatesNodeParentForNode mapId child w' = (w'', Fulfilled true)).
Proof.
  intros Hid Hadd Hparent.
  pose proof (addNode_outcome mapId n w) as Ha. rewrite Hadd in Ha.
  destruct Ha as (m & Em & _ & Hcid & Hmap & _ & _ & _ & Hcases).
  assert (Hin : In c (nodes w')).
  { destruct Hcases as [[Hf Hsame] | (_ & _ & Happ)].
    - rewrite Hsame. apply (find_some _ _ Hf).
    - rewrite Happ. apply in_or_app. right. left. reflexivity. }
  assert (Htr : truthy (Some (MmpNode.id n)) = Some (MmpNode.id n)).
  { cbn. destruct (MmpNode.id n); [congruence | reflexivity]. }
  split.
  - destruct (existsNode_run mapId (Some (MmpNode.id n)) w')
      as (w'' & b & E & _ & _ & _ & _ & Hb).
    exists w''. rewrite E. f_equal. f_equal. apply Hb.
    exists m, (MmpNode.id n). split; [exact Em|]. split; [exact Htr|].
    exists c. auto.
  - destruct (validatesNodeParentForNode_run mapId child w')
      as (w'' & b & E & _ & _ & _ & _ & Hb).
    exists w''. rewrite E. f_equal. f_equal. apply Hb.
    right. right. exists m, (MmpNode.id n).
    split; [exact Em|]. split; [rewrite Hparent; exact Htr|].
    exists c. auto.
Qed.

(** X4.  [findNodes] is fulfilled with the rows of the map and no other
    row, each as often as it is stored, in ascending order of their order
    number; it changes neither table. *)
Theorem findNodes_sorted_rows (mapId : string) (w : World) :
  exists w' found,
    findNodes mapId w = (w', Fulfilled found)
    /\ Permutation (filter (node_in_map mapId) (nodes w)) found
    /\ Sorted ascending found
    /\ (forall n, In n found <-> In n (nodes w) /\ MmpNode.nodeMapId n = mapId)
    /\ maps w' = maps w /\ nodes w' = nodes w.
Proof.
  unfold findNodes, nodes_getManyByMap. eexists. eexists.
  split; [reflexivity|].
  split; [apply order_by_orderNumber_perm|].
  split; [apply order_by_orderNumber_sorted|].
  split; [|split; reflexivity].
  intros n. rewrite order_by_orderNumber_In, filter_In, node_in_map_true.
  reflexivity.
Qed.

Lemma parents_first_batch (mapId : option string) (m : string) (ns : list MmpNode.t) :
  truthy mapId = Some m ->
  forall (known : list string) (acc : list MmpNode.t) (w : World),
    (forall p, In p known -> stored_under w m p) ->
    parents_first known ns ->
    Forall no_detached_parent ns ->
    exists w' new,
      addNodesBatch mapId ns acc w = (w', Fulfilled (acc ++ new))
      /\ map MmpNode.id new = map MmpNode.id ns
      /\ warnings w' = warnings w.
Proof.
  intros Em. induction ns as [|n rest IH]; intros known acc w Hknown Hpf Hguard;
    cbn [addNodesBatch].
  - exists w, []. rewrite app_nil_r. repeat split.
  - destruct Hpf as [Hn Hrest]. inversion Hguard as [|? ? Hgn Hgrest]; subst.
    unfold bind.
    destruct (validatesNodeParentForNode_run mapId n w)
      as (w1 & b & E & _ & Hn1 & _ & Hw1 & Hb).
    rewrite E.
    assert (Hvalid : b = true).
    { apply Hb. destruct Hn as [Hr | [Hd | (p & Hp & Hin)]]; auto.
      right. right. exists m, p. split; [exact Em|]. split; [exact Hp|].
      apply Hknown. assumption. }
    rewrite Hvalid.
    pose proof (addNode_outcome mapId n w1) as Ha.
    destruct (addNode mapId (Some n) w1) as [w2 [c|e]].
    2: { destruct Ha as (_ & _ & [Hbad | [Hd Hp]]); [congruence|].
         destruct Hgn; congruence. }
    destruct Ha as (m' & Em' & _ & Hcid & Hmap & _ & _ & Hw2 & Hcases).
    assert (m' = m) as -> by congruence.
    assert (Hgrow : forall x, In x (nodes w) -> In x (nodes w2)).
    { intros x Hx. rewrite <- Hn1 in Hx.
      destruct Hcases as [[_ ->] | (_ & _ & ->)]; [assumption|].
      apply in_or_app. left. assumption. }
    assert (Hcin : In c (nodes w2)).
    { destruct Hcases as [[Hf Hsame] | (_ & _ & Happ)].
      - rewrite Hsame. apply (find_some _ _ Hf).
      - rewrite Happ. apply in_or_app. right. left. reflexivity. }
    destruct (IH (MmpNode.id n :: known) (acc ++ [c]) w2) as (w' & new & Eb & Hids & Hw');
      [| exact Hrest | exact Hgrest |].
    + intros p [<- | Hp].
      * exists c. auto.
      * destruct (Hknown p Hp) as (x & Hx & Hxid & Hxmap).
        exists x. auto.
    + exists w', (c :: new). rewrite Eb, <- app_assoc. cbn.
      split; [reflexivity|]. split; [rewrite Hcid, Hids; reflexivity|]. congruence.
Qed.

(** X5.  When the map identifier is usable, no node is both detached and
    carrying a parent, and every node that needs a parent finds it stored
    under the map or earlier in the sequence, the batch insert drops
    nothing: it is fulfilled with one record per node, in input order, and
    logs no warning. *)
Theorem addNodes_parents_first (mapId : option string) (m : string)
    (known : list string) (ns : list MmpNode.t) (w : World) :
  truthy mapId = Some m ->
  (forall p, In p known -> stored_under w m p) ->
  parents_first known ns ->
  Forall no_detached_parent ns ->
  exists w' created,
    addNodes mapId ns w = (w', Fulfilled created)
    /\ map MmpNode.id created = map MmpNode.id ns
    /\ warnings w' = warnings w.
Proof.
  intros Em Hknown Hpf Hguard. rewrite addNodes_is_addNodesBatch.
  destruct (parents_first_batch mapId m ns Em known [] w Hknown Hpf Hguard)
    as (w' & new & E & Hids & Hw).
  exists w', new. auto.
Qed.

End WithCollaborators.
End InvariantFacts.

(* ================================================================= *)
(** ** Rebuilding a map: what it leaves alone, and doing it twice *)

Module RebuildMoreFacts.
Import Repo Service RepoFacts GuardFacts InsertFacts RebuildFacts.
Import Spec SpecMore.

Lemma validates_same_nodes (mapId : option string) (n : MmpNode.t) (w v : World) :
  nodes w = nodes v ->
  exists b w1 v1,
    validatesNodeParentForNode mapId n w = (w1, Fulfilled b)
    /\ validatesNodeParentForNode mapId n v = (v1, Fulfilled b)
    /\ nodes w1 = nodes w /\ nodes v1 = nodes v
    /\ maps w1 = maps w /\ maps v1 = maps v.
Proof.
  intros Heq.
  destruct (validatesNodeParentForNode_run mapId n w)
    as (w1 & b & E & Hm & Hn & _ & _ & Hb).
  destruct (validatesNodeParentForNode_run mapId n v)
    as (v1 & b' & E' & Hm' & Hn' & _ & _ & Hb').
  rewrite <- Heq in Hb'.
  assert (b' = b).
  { destruct b, b'; auto.
    - apply (proj2 Hb'). apply (proj1 Hb). reflexivity.
    - symmetry. apply (proj2 Hb). apply (proj1 Hb'). reflexivity. }
  subst b'. exists b, w1, v1. auto 10.
Qed.

Lemma addNode_same_nodes (mapId : option string) (n : MmpNode.t) (w v : World) :
  nodes w = nodes v ->
  snd (addNode mapId (Some n) w) = snd (addNode mapId (Some n) v)
  /\ nodes (fst (addNode mapId (Some n) w)) = nodes (fst (addNode mapId (Some n) v)).
Proof.
  intros Heq. unfold addNode.
  destruct (MmpNode.detached n && _); [cbn; auto|].
  destruct (truthy mapId) as [m|]; [|cbn; auto].
  unfold bind, nodes_findOne. rewrite Heq.
  destruct (find (node_has_key (MmpNode.id n) m) (nodes v)); cbn; [auto|].
  rewrite Heq. auto.
Qed.

Lemma addNodesBatch_same_nodes (mapId : option string) (ns : list MmpNode.t) :
  forall (acc : list MmpNode.t) (w v : World),
    nodes w = nodes v ->
    snd (addNodesBatch mapId ns acc w) = snd (addNodesBatch mapId ns acc v)
    /\ nodes (fst (addNodesBatch mapId ns acc w))
       = nodes (fst (addNodesBatch mapId ns acc v)).
Proof.
  induction ns as [|n rest IH]; intros acc w v Heq; cbn [addNodesBatch].
  - cbn. auto.
  - unfold bind.
    destruct (validates_same_nodes mapId n w v Heq)
      as (b & w1 & v1 & E & E' & Hn & Hn' & _ & _).
    rewrite E, E'.
    assert (Heq1 : nodes w1 = nodes v1) by congruence.
    destruct b.
    + pose proof (addNode_same_nodes mapId n w1 v1 Heq1) as [Hr Hn2].
      destruct (addNode mapId (Some n) w1) as [w2 [c|e]],
               (addNode mapId (Some n) v1) as [v2 [c'|e']];
        cbn [fst snd] in *; try discriminate.
      * inversion Hr; subst. apply IH. exact Hn2.
      * inversion Hr; subst. auto.
    + cbn [warn]. apply IH. cbn. exact Heq1.
Qed.

Lemma filter_filter_same (p : MmpNode.t -> bool) (l : list MmpNode.t) :
  filter p (filter p l) = filter p l.
Proof.
  induction l as [|x l IH]; cbn; [reflexivity|].
  destruct (p x) eqn:E; cbn; [rewrite E, IH|]; auto.
Qed.

Lemma filter_none (p : MmpNode.t -> bool) (l : list MmpNode.t) :
  (forall x, In x l -> p x = false) -> filter p l = [].
Proof.
  induction l as [|x l IH]; cbn; intros Hp; [reflexivity|].
  rewrite (Hp x) by auto. apply IH. auto.
Qed.

Section WithCollaborators.
Context `{Collaborators}.

(** [updateMap] in terms of its batch insert. *)
Lemma updateMap_unfold (clientMap : IMmpClientMap IMmpClientNode) (w : World) :
  updateMap clientMap w
  = match addNodesBatch (Some (uuid clientMap)) (submitted clientMap) []
            (cleared clientMap w) with
    | (w2, Fulfilled _) => findMap (uuid clientMap) w2
    | (w2, Rejected e) => (w2, Rejected e)
    end.
Proof.
  unfold updateMap, bind, addNodesFromClient. cbn [nodes_deleteByMap].
  rewrite addNodes_is_addNodesBatch. reflexivity.
Qed.

(** The rows that [updateMap] leaves: those of the other maps, then the
    rows of the batch insert, all filed under the map. *)
Lemma updateMap_rows (clientMap : IMmpClientMap IMmpClientNode) (w : World) :
  exists inserted,
    nodes (fst (updateMap clientMap w))
    = filter (fun n => negb (node_in_map (uuid clientMap) n)) (nodes w) ++ inserted
    /\ (forall x, In x inserted -> node_in_map (uuid clientMap) x = true)
    /\ maps (fst (updateMap clientMap w)) = maps w
    /\ nodes (fst (updateMap clientMap w))
       = nodes (fst (addNodesBatch (Some (uuid clientMap)) (submitted clientMap) []
                       (cleared clientMap w))).
Proof.
  rewrite updateMap_unfold.
  pose proof (addNodesBatch_outcome (Some (uuid clientMap)) (submitted clientMap) []
                (cleared clientMap w)) as Hout.
  destruct (addNodesBatch _ _ [] (cleared clientMap w)) as [w2 r].
  destruct Hout as (Hm & _ & ins & skp & Hn & Hunder & _).
  assert (Hmine : forall x, In x ins -> node_in_map (uuid clientMap) x = true).
  { intros x Hx. specialize (Hunder x Hx). symmetry in Hunder.
    apply truthy_Some in Hunder. destruct Hunder as [Hu _].
    apply node_in_map_true. congruence. }
  exists ins. cbn [fst].
  destruct r as [created|e]; cbn [fst].
  - pose proof (findMap_tables (uuid clientMap) w2) as Ht.
    destruct (findMap (uuid clientMap) w2) as [w3 r3]. destruct Ht as [Hm3 Hn3].
    cbn [fst]. rewrite Hn3, Hm3. auto.
  - auto.
Qed.

(** X6.  [updateMap] touches the nodes of its own map only: the rows of
    every other map are left as they were, in their order, and the maps
    table is not changed, whatever the outcome. *)
Theorem updateMap_other_maps_untouched (clientMap : IMmpClientMap IMmpClientNode)
    (w : World) :
  let w' := fst (updateMap clientMap w) in
  maps w' = maps w
  /\ filter (fun n => negb (node_in_map (uuid clientMap) n)) (nodes w')
     = filter (fun n => negb (node_in_map (uuid clientMap) n)) (nodes w).
Proof.
  cbv zeta. destruct (updateMap_rows clientMap w) as (ins & Hn & Hmine & Hm & _).
  split; [exact Hm|].
  rewrite Hn, filter_app, filter_filter_same.
  rewrite (filter_none _ ins); [apply app_nil_r|].
  intros x Hx. rewrite (Hmine x Hx). reflexivity.
Qed.

Lemma findMap_same_maps (uuid : string) (w v : World) :
  maps w = maps v -> snd (findMap uuid w) = snd (findMap uuid v).
Proof.
  intros Heq. unfold findMap. destruct (uuidValidate uuid); cbn; [|reflexivity].
  rewrite Heq. reflexivity.
Qed.

(** X7.  Submitting the same client map a second time changes nothing
    more: [updateMap] leaves the same rows in both tables and settles the
    same way as the first time. *)
Theorem updateMap_twice (clientMap : IMmpClientMap IMmpClientNode) (w : World) :
  let w' := fst (updateMap clientMap w) in
  nodes (fst (updateMap clientMap w')) = nodes w'
  /\ maps (fst (updateMap clientMap w')) = maps w'
  /\ snd (updateMap clientMap w') = snd (updateMap clientMap w).
Proof.
  cbv zeta.
  destruct (updateMap_rows clientMap w) as (ins & Hn & Hmine & Hm & Hb).
  set (w' := fst (updateMap clientMap w)) in *.
  destruct (updateMap_rows clientMap w') as (ins' & Hn' & _ & Hm' & Hb').
  assert (Hcleared : nodes (cleared clientMap w') = nodes (cleared clientMap w)).
  { unfold cleared. cbn. rewrite Hn, filter_app, filter_filter_same.
    rewrite (filter_none _ ins); [apply app_nil_r|].
    intros x Hx. rewrite (Hmine x Hx). reflexivity. }
  pose proof (addNodesBatch_same_nodes (Some (uuid clientMap)) (submitted clientMap) []
                _ _ Hcleared) as [Hres Hnodes].
  split; [rewrite Hb', Hb; exact Hnodes|]. split; [exact Hm'|].
  rewrite !updateMap_unfold.
  pose proof (addNodesBatch_outcome (Some (uuid clientMap)) (submitted clientMap) []
                (cleared clientMap w)) as Hout.
  pose proof (addNodesBatch_outcome (Some (uuid clientMap)) (submitted clientMap) []
                (cleared clientMap w')) as Hout'.
  destruct (addNodesBatch _ _ [] (cleared clientMap w)) as [w2 r].
  destruct (addNodesBatch _ _ [] (cleared clientMap w')) as [v2 r'].
  cbn [snd] in Hres. subst r'.
  destruct Hout as (Hm2 & _). destruct Hout' as (Hm2' & _).
  destruct r as [created|e]; [|reflexivity].
  apply findMap_same_maps. rewrite Hm2', Hm2. unfold cleared. cbn. exact Hm.
Qed.

End WithCollaborators.
End RebuildMoreFacts.

(* ================================================================= *)
(** ** Rebuilding a map: what the map holds afterwards *)

Module ReplaceFacts.
Import Repo Service RepoFacts GuardFacts InsertFacts InvariantFacts.
Import RebuildFacts RebuildMoreFacts Spec SpecMore.





Section WithCollaborators.
Context `{Collaborators}.





End WithCollaborators.
End ReplaceFacts.

(* ================================================================= *)
(** ** The sweep again, and the deadline shown to the client *)

Module SweepMoreFacts.
Import JSDate DateFacts Repo Service RepoFacts GuardFacts SweepFacts DeadlineFacts.
Import RetentionFacts Spec SpecMore.

Lemma outdated_by_source afterDays today (w : World) (m : MmpMap.t) :
  outdated afterDays today w m
  = (deadline_source w m + afterDays * msPerDay <? today).
Proof. unfold outdated, deadline_source. destruct (sql_max _); reflexivity. Qed.

Lemma NoDup_ids_filter (p : MmpMap.t -> bool) (ms : list MmpMap.t) :
  NoDup (map MmpMap.id ms) -> NoDup (map MmpMap.id (filter p ms)).
Proof.
  induction ms as [|m ms IH]; cbn; intros Hnd; [constructor|].
  inversion Hnd as [|? ? Hnotin Hnd']; subst.
  destruct (p m); cbn; [|auto].
  constructor; [|auto].
  intros Hin. apply Hnotin. apply in_map_iff in Hin.
  destruct Hin as (x & Hid & Hx). apply filter_In in Hx.
  rewrite <- Hid. apply in_map. tauto.
Qed.

Lemma filter_none_in_maps (p : MmpMap.t -> bool) (ms : list MmpMap.t) :
  (forall m, In m ms -> p m = false) -> filter p ms = [].
Proof.
  induction ms as [|m ms IH]; cbn; intros Hp; [reflexivity|].
  rewrite (Hp m) by auto. apply IH. auto.
Qed.

(** A kept map keeps its nodes through the cascade. *)
Lemma owned_after_cascade (ids : list string) (k : string) (ns : list MmpNode.t) :
  id_in ids k = false ->
  filter (node_in_map k) (cascade ids ns) = filter (node_in_map k) ns.
Proof.
  intros Hk. unfold cascade. induction ns as [|x ns IH]; cbn; [reflexivity|].
  destruct (node_in_map k x) eqn:Ex.
  - apply node_in_map_true in Ex. rewrite Ex, Hk. cbn.
    replace (node_in_map k x) with true
      by (symmetry; apply node_in_map_true; assumption).
    rewrite IH. reflexivity.
  - destruct (id_in ids (MmpNode.nodeMapId x)); cbn; [exact IH|].
    rewrite Ex. exact IH.
Qed.

Section WithCollaborators.
Context `{Collaborators}.

(** The world that the sweep leaves when it is within the ranges of the
    database. *)
Lemma deleteOutdatedMaps_world (afterDays : option Z) (w : World) :
  NoDup (map MmpMap.id (maps w)) ->
  let days := match afterDays with Some d => d | None => 30 end in
  let ids := map MmpMap.id (filter (outdated days (clock w) w) (maps w)) in
  sweep_in_range days w = true ->
  exists w' count,
    deleteOutdatedMaps afterDays w = (w', Fulfilled count)
    /\ maps w' = filter (fun m => negb (outdated days (clock w) w m)) (maps w)
    /\ nodes w' = cascade ids (nodes w)
    /\ clock w' = clock w.
Proof.
  intros Hnd. cbv zeta.
  set (days := match afterDays with Some d => d | None => 30 end).
  intros Hrange.
  unfold deleteOutdatedMaps. fold days.
  unfold bind at 1. unfold newDateNow.
  unfold bind at 1. unfold date_parameter. cbn [with_dates dates].
  unfold getTime. rewrite thisTimeValue_new_fresh.
  unfold bind. rewrite maps_selectOutdated_run.
  rewrite (sweep_in_range_tables days _ w) by reflexivity. rewrite Hrange.
  cbn [maps nodes record with_dates].
  change (outdated days (clock w) _) with (outdated days (clock w) w).
  set (today := clock w).
  set (sel := filter (outdated days today w) (maps w)).
  rewrite length_map.
  destruct (Nat.ltb 0 (List.length sel)) eqn:Epos.
  - unfold maps_deleteIn. cbn [maps nodes record with_maps with_nodes with_dates].
    eexists. eexists. split; [reflexivity|]. cbn. split; [|split; reflexivity].
    apply filter_ext_in_maps. intros m Hin.
    subst sel. rewrite id_in_selected by assumption. reflexivity.
  - apply Nat.ltb_ge in Epos.
    assert (Hnil : sel = []) by (apply length_zero_iff_nil; lia).
    rewrite Hnil. eexists. eexists. split; [reflexivity|]. cbn.
    split; [symmetry; apply filter_none_keeps_all; exact Hnil|].
    split; [|reflexivity].
    unfold cascade. cbn. clear. induction (nodes w) as [|x l IH]; cbn; congruence.
Qed.

(** After a sweep within the ranges every map that is left counts from the
    time it counted from before, so the next sweep is within them too and
    finds no map to delete. *)
Lemma deleteOutdatedMaps_left (afterDays : option Z) (w w' : World) :
  NoDup (map MmpMap.id (maps w)) ->
  let days := match afterDays with Some d => d | None => 30 end in
  let ids := map MmpMap.id (filter (outdated days (clock w) w) (maps w)) in
  maps w' = filter (fun m => negb (outdated days (clock w) w m)) (maps w) ->
  nodes w' = cascade ids (nodes w) ->
  clock w' = clock w ->
  sweep_in_range days w = true ->
  sweep_in_range days w' = true
  /\ filter (outdated days (clock w') w') (maps w') = [].
Proof.
  intros Hnd. cbv zeta.
  set (days := match afterDays with Some d => d | None => 30 end).
  intros Hmaps Hnodes Hclock Hrange.
  assert (Hsrc : forall m, In m (maps w') ->
            In m (maps w) /\ outdated days (clock w) w m = false
            /\ owned w' m = owned w m).
  { intros m Hin. rewrite Hmaps in Hin. apply filter_In in Hin.
    destruct Hin as [Hin Hkept]. apply negb_true_iff in Hkept.
    split; [exact Hin|]. split; [exact Hkept|].
    unfold owned. rewrite Hnodes. apply owned_after_cascade.
    rewrite id_in_selected by assumption. exact Hkept. }
  split.
  - apply sweep_in_range_spec in Hrange. destruct Hrange as [Hd Hall].
    apply sweep_in_range_spec. split; [exact Hd|].
    intros m Hin. destruct (Hsrc m Hin) as (Hin' & _ & Howned).
    unfold deadline_source. rewrite Howned. apply (Hall m Hin').
  - apply filter_none_in_maps. intros m Hin.
    destruct (Hsrc m Hin) as (_ & Hkept & Howned).
    unfold outdated. rewrite Howned, Hclock. exact Hkept.
Qed.

(** X8.  A second sweep right after a sweep finds nothing to delete and
    leaves both tables as the first one left them: within the ranges of the
    database it is fulfilled with 0; outside them it is rejected as the
    first one was. *)
Theorem deleteOutdatedMaps_twice (afterDays : option Z) (w : World) :
  NoDup (map MmpMap.id (maps w)) ->
  let days := match afterDays with Some d => d | None => 30 end in
  let w' := fst (deleteOutdatedMaps afterDays w) in
  exists w'',
    deleteOutdatedMaps afterDays w'
    = (w'', if sweep_in_range days w then Fulfilled 0
            else Rejected QueryFailedError)
    /\ maps w'' = maps w' /\ nodes w'' = nodes w'.
Proof.
  intros Hnd. cbv zeta.
  set (days := match afterDays with Some d => d | None => 30 end).
  destruct (sweep_in_range days w) eqn:Hrange.
  - destruct (deleteOutdatedMaps_world afterDays w Hnd Hrange)
      as (w' & count & E & Hmaps & Hnodes & Hclock).
    cbv zeta in Hmaps, Hnodes. fold days in Hmaps, Hnodes. rewrite E. cbn [fst].
    assert (Hnd' : NoDup (map MmpMap.id (maps w')))
      by (rewrite Hmaps; apply NoDup_ids_filter; assumption).
    destruct (deleteOutdatedMaps_left afterDays w w' Hnd Hmaps Hnodes Hclock Hrange)
      as [Hrange' Hnone].
    fold days in Hrange', Hnone.
    destruct (deleteOutdatedMaps_run afterDays w' Hnd' Hrange')
      as (w'' & E2 & Hmaps2 & Hnodes2).
    cbv zeta in E2, Hmaps2, Hnodes2. fold days in E2, Hmaps2, Hnodes2.
    exists w''. rewrite E2, Hnone. cbn. split; [reflexivity|].
    split; [|apply Hnodes2; exact Hnone].
    rewrite Hmaps2. apply filter_none_keeps_all. exact Hnone.
  - destruct (deleteOutdatedMaps_rejected afterDays w Hrange)
      as (w' & E & Hmaps & Hnodes & _).
    rewrite E. cbn [fst].
    assert (Hrange' : sweep_in_range days w' = false)
      by (rewrite (sweep_in_range_tables days w' w); assumption).
    destruct (deleteOutdatedMaps_rejected afterDays w' Hrange')
      as (w'' & E2 & Hmaps2 & Hnodes2 & _).
    exists w''. auto.
Qed.

(** X9.  A longer retention never deletes more: a map that survives a
    sweep under [d1] days that is within the ranges of the database
    survives the sweep under any [d2 >= d1], whether that one is fulfilled
    or rejected. *)
Theorem deleteOutdatedMaps_monotone (d1 d2 : Z) (w : World) (m : MmpMap.t) :
  NoDup (map MmpMap.id (maps w)) ->
  d1 <= d2 ->
  sweep_in_range d1 w = true ->
  In m (maps (fst (deleteOutdatedMaps (Some d1) w))) ->
  In m (maps (fst (deleteOutdatedMaps (Some d2) w))).
Proof.
  intros Hnd Hle Hrange1.
  destruct (deleteOutdatedMaps_run (Some d1) w Hnd Hrange1) as (w1 & E1 & Hm1 & _).
  cbv zeta in *. rewrite E1. cbn [fst]. rewrite Hm1, filter_In.
  intros [Hin Hkept].
  destruct (sweep_in_range d2 w) eqn:Hrange2.
  - destruct (deleteOutdatedMaps_run (Some d2) w Hnd Hrange2) as (w2 & E2 & Hm2 & _).
    cbv zeta in *. rewrite E2. cbn [fst]. rewrite Hm2, filter_In.
    split; [exact Hin|].
    rewrite negb_true_iff in *. rewrite outdated_by_source in *.
    apply Z.ltb_ge in Hkept. apply Z.ltb_ge. unfold msPerDay in *. nia.
  - destruct (deleteOutdatedMaps_rejected (Some d2) w Hrange2)
      as (w2 & E2 & Hm2 & _).
    rewrite E2. cbn [fst]. rewrite Hm2. exact Hin.
Qed.

(** X10.  In a time zone of constant offset the deadline that
    [getDeletedAt] computes is the one the sweep applies: a stored map is
    deleted by [deleteOutdatedMaps] under the same number of days, the
    sweep being within the ranges of the database, exactly when that
    deadline lies before the current time. *)
Theorem getDeletedAt_agrees_with_sweep (afterDays c : Z) (w : World) (m : MmpMap.t) :
  NoDup (map MmpMap.id (maps w)) ->
  In m (maps w) ->
  (forall x b, LocalTZA x b = c) ->
  Z.abs (deadline_source w m) <= maxTime ->
  Z.abs (deadline_source w m + afterDays * msPerDay) <= maxTime ->
  sweep_in_range afterDays w = true ->
  exists w1 r deadline,
    getDeletedAt (Some m) afterDays w = (w1, Fulfilled r)
    /\ thisTimeValue (dates w1) r = Some deadline
    /\ (deadline < clock w
        <-> ~ In m (maps (fst (deleteOutdatedMaps (Some afterDays) w)))).
Proof.
  intros Hnd Hin Hzone Hsrc Hdl Hrange.
  destruct (getDeletedAt_run m afterDays w) as (w1 & r & E & _ & _ & _ & _ & Hv).
  specialize (Hv Hsrc).
  assert (Hmoved : UTC LocalTZA (LocalTime LocalTZA (deadline_source w m)
                                 + afterDays * msPerDay)
                   = deadline_source w m + afterDays * msPerDay)
    by (unfold UTC, LocalTime; rewrite !Hzone; lia).
  rewrite Hmoved, (TimeClip_in_range _ Hdl) in Hv.
  exists w1, r, (deadline_source w m + afterDays * msPerDay).
  split; [exact E|]. split; [exact Hv|].
  destruct (deleteOutdatedMaps_run (Some afterDays) w Hnd Hrange)
    as (w2 & E2 & Hm2 & _).
  cbv zeta in *. rewrite E2. cbn [fst]. rewrite Hm2, filter_In, negb_true_iff.
  rewrite outdated_by_source. rewrite <- Z.ltb_lt.
  destruct (_ <? _); intuition congruence.
Qed.

(** X21.  Outside the ranges of the database (a number of days that no
    interval holds, or a map whose time plus the retention is no
    timestamp) [deleteOutdatedMaps] is rejected with the error of the
    select, which is the only query it has issued: no map and no node is
    deleted. *)
Theorem deleteOutdatedMaps_out_of_range (afterDays : option Z) (w : World) :
  sweep_in_range (match afterDays with Some d => d | None => 30 end) w = false ->
  exists w',
    deleteOutdatedMaps afterDays w = (w', Rejected QueryFailedError)
    /\ maps w' = maps w /\ nodes w' = nodes w
    /\ queries w'
       = (queries w
            ++ [MapSelectOutdated (match afterDays with Some d => d | None => 30 end)
                  (clock w)])%list.
Proof.
  intros Hrange.
  destruct (deleteOutdatedMaps_rejected afterDays w Hrange)
    as (w' & E & Hmaps & Hnodes & _ & Hq).
  exists w'. auto.
Qed.

End WithCollaborators.
End SweepMoreFacts.

(* ================================================================= *)
(** ** Exporting a map, and adding retention periods *)

Module ExportFacts.
Import JSDate DateFacts Repo Service RepoFacts GuardFacts SweepFacts DeadlineFacts.
Import RetentionFacts Spec SpecMore.

Section WithCollaborators.
Context `{Collaborators}.

(** [exportMapToClient] on a stored map. *)
Lemma exportMapToClient_run (uuid : string) (m : MmpMap.t) (w : World) :
  uuidValidate uuid = true ->
  find (map_has_id uuid) (maps w) = Some m ->
  exists w' r,
    exportMapToClient uuid w
    = (w', Fulfilled (mapMmpMapToClient m (order_by_orderNumber (owned w m)) r
                        deleteAfterDays))
    /\ maps w' = maps w /\ nodes w' = nodes w
    /\ (Z.abs (deadline_source w m) <= maxTime ->
        thisTimeValue (dates w') r
        = TimeClip (UTC LocalTZA (LocalTime LocalTZA (deadline_source w m)
                                  + deleteAfterDays * msPerDay))).
Proof.
  intros Hvalid Hfind.
  unfold exportMapToClient, bind at 1, findMap. rewrite Hvalid. cbn [negb].
  unfold maps_findOne. rewrite Hfind.
  unfold bind at 1, findNodes, nodes_getManyByMap.
  cbn [nodes record]. fold (owned w m).
  unfold bind.
  match goal with
  | |- context [getDeletedAt (Some m) deleteAfterDays ?w0] =>
      destruct (getDeletedAt_run m deleteAfterDays w0)
        as (w' & r & E & Hm & Hn & _ & _ & Hv);
      assert (Hsrc : deadline_source w0 m = deadline_source w m) by reflexivity;
      rewrite Hsrc in Hv; cbn [maps nodes record] in Hm, Hn
  end.
  exists w', r. rewrite E. cbn [resolve]. auto.
Qed.

(** X11.  [exportMapToClient] fails in two ways only: with
    [MalformedUUIDError], the world untouched, when the validator refuses
    the string; and without a reason, after the one lookup of the map,
    when no map has the identifier.  On a stored map it is fulfilled.  It
    changes neither table in any case. *)
Theorem exportMapToClient_outcomes (uuid : string) (w : World) :
  match uuidValidate uuid, find (map_has_id uuid) (maps w) with
  | false, _ =>
      exportMapToClient uuid w = (w, Rejected (MalformedUUIDError "Invalid UUID"))
  | true, None =>
      exists w',
        exportMapToClient uuid w = (w', Rejected NoReason)
        /\ maps w' = maps w /\ nodes w' = nodes w /\ dates w' = dates w
        /\ queries w' = queries w ++ [MapFindOne uuid]
  | true, Some m =>
      exists w' client,
        exportMapToClient uuid w = (w', Fulfilled client)
        /\ maps w' = maps w /\ nodes w' = nodes w
  end.
Proof.
  destruct (uuidValidate uuid) eqn:Hvalid.
  - destruct (find (map_has_id uuid) (maps w)) as [m|] eqn:Hfind.
    + destruct (exportMapToClient_run uuid m w Hvalid Hfind)
        as (w' & r & E & Hm & Hn & _).
      eexists. eexists. split; [exact E|]. auto.
    + unfold exportMapToClient, bind, findMap. rewrite Hvalid. cbn [negb].
      unfold maps_findOne. rewrite Hfind.
      eexists. split; [reflexivity|]. cbn. auto.
  - unfold exportMapToClient, bind, findMap. rewrite Hvalid. reflexivity.
Qed.

(** X12.  On a stored map [exportMapToClient] hands the client mapping the
    map record, the nodes of the map in ascending order number, the
    configured retention, and a Date holding the deadline counted from the
    map's most recent modification (its newest node, or the map itself
    when it owns none). *)
Theorem exportMapToClient_assembles (uuid : string) (m : MmpMap.t) (w : World) :
  uuidValidate uuid = true ->
  find (map_has_id uuid) (maps w) = Some m ->
  Z.abs (deadline_source w m) <= maxTime ->
  exists w' r found,
    exportMapToClient uuid w
    = (w', Fulfilled (mapMmpMapToClient m found r deleteAfterDays))
    /\ Permutation (owned w m) found /\ Sorted ascending found
    /\ (newest (deadline_source w m) (owned w m)
        \/ (owned w m = [] /\ deadline_source w m = MmpMap.lastModified m))
    /\ thisTimeValue (dates w') r
       = TimeClip (UTC LocalTZA (LocalTime LocalTZA (deadline_source w m)
                                 + deleteAfterDays * msPerDay)).
Proof.
  intros Hvalid Hfind Hsrc.
  destruct (exportMapToClient_run uuid m w Hvalid Hfind) as (w' & r & E & _ & _ & Hv).
  exists w', r, (order_by_orderNumber (owned w m)).
  split; [exact E|].
  split; [apply order_by_orderNumber_perm|].
  split; [apply order_by_orderNumber_sorted|].
  split; [apply deadline_source_spec | apply Hv; exact Hsrc].
Qed.

(** X13.  In a time zone of constant offset, retention periods add up:
    moving a Date by [a] days and the result by [b] days gives the Date
    that moving it by [a + b] days gives, as long as the intermediate
    deadline is within the range of Date. *)
Theorem calculcateDeletedAt_adds_up (h : DateHeap) (d : DateRef) (t a b c : Z) :
  (forall x z, LocalTZA x z = c) ->
  (d < List.length h)%nat ->
  thisTimeValue h d = Some t ->
  Z.abs t <= maxTime ->
  Z.abs (t + a * msPerDay) <= maxTime ->
  let (h1, d1) := calculcateDeletedAt d a h in
  let (h2, d2) := calculcateDeletedAt d1 b h1 in
  let (h3, d3) := calculcateDeletedAt d (a + b) h in
  thisTimeValue h2 d2 = thisTimeValue h3 d3
  /\ thisTimeValue h2 d2 = TimeClip (t + (a + b) * msPerDay)
  /\ thisTimeValue h2 d = Some t.
Proof.
  intros Hzone Hd Ht Hvalid Hmid.
  assert (Hmove : forall x n, UTC LocalTZA (LocalTime LocalTZA x + n * msPerDay)
                              = x + n * msPerDay)
    by (intros; unfold UTC, LocalTime; rewrite !Hzone; lia).
  destruct (calculcateDeletedAt_run h d a t Hd Ht Hvalid) as (h1 & -> & Hold1 & Hv1).
  rewrite Hmove, (TimeClip_in_range _ Hmid) in Hv1.
  assert (Hlen1 : (List.length h < List.length h1)%nat).
  { destruct (Nat.lt_ge_cases (List.length h) (List.length h1)) as [Hlt | Hge];
      [exact Hlt|].
    unfold thisTimeValue in Hv1. rewrite nth_overflow in Hv1 by exact Hge.
    discriminate. }
  destruct (calculcateDeletedAt_run h1 (List.length h) b _ Hlen1 Hv1 Hmid)
    as (h2 & -> & Hold2 & Hv2).
  destruct (calculcateDeletedAt_run h d (a + b) t Hd Ht Hvalid) as (h3 & -> & _ & Hv3).
  rewrite Hmove in Hv2, Hv3.
  replace (t + a * msPerDay + b * msPerDay) with (t + (a + b) * msPerDay) in Hv2 by lia.
  split; [congruence|]. split; [exact Hv2|].
  rewrite Hold2 by lia. rewrite Hold1 by exact Hd. exact Ht.
Qed.

End WithCollaborators.
End ExportFacts.

(* ================================================================= *)
(** ** Single nodes and map options *)

Module NodeFacts.
Import JSDate DateFacts Repo Service ServiceMore RepoFacts GuardFacts InsertFacts.
Import InvariantFacts Spec SpecMore.

Lemma find_none_keeps_all (p : MmpNode.t -> bool) (rows : list MmpNode.t) :
  find p rows = None -> filter (fun r => negb (p r)) rows = rows.
Proof.
  induction rows as [|r rows IH]; cbn; [reflexivity|].
  destruct (p r); [discriminate|]. cbn. intros E. f_equal. apply IH. exact E.
Qed.

Lemma find_app_fresh (p : MmpNode.t -> bool) (rows : list MmpNode.t) (c : MmpNode.t) :
  find p rows = None -> p c = true -> find p (rows ++ [c]) = Some c.
Proof.
  induction rows as [|r rows IH]; cbn; intros Hf Hc; [rewrite Hc; reflexivity|].
  destruct (p r); [discriminate|]. apply IH; assumption.
Qed.

Lemma key_in_rows (n : MmpNode.t) (rows : list MmpNode.t) (e : MmpNode.t) :
  find (node_has_key (MmpNode.id n) (MmpNode.nodeMapId n)) rows = Some e ->
  node_key e = node_key n /\ In e rows.
Proof.
  intros Hf. apply find_some in Hf. destruct Hf as [Hin Hk].
  apply node_has_key_true in Hk. destruct Hk as [Hid Hmap].
  unfold node_key. rewrite Hid, Hmap. auto.
Qed.

(** Saving over a stored key keeps the keys of the table, row by row. *)
Lemma upsert_keys (n : MmpNode.t) (rows : list MmpNode.t) (e : MmpNode.t) :
  find (node_has_key (MmpNode.id n) (MmpNode.nodeMapId n)) rows = Some e ->
  map node_key (upsert n rows) = map node_key rows.
Proof.
  induction rows as [|r rows IH]; cbn; [discriminate|].
  destruct (node_has_key _ _ r) eqn:Er; cbn.
  - intros _. apply node_has_key_true in Er. destruct Er as [Hid Hmap].
    unfold node_key. rewrite Hid, Hmap. reflexivity.
  - intros Hf. rewrite IH by exact Hf. reflexivity.
Qed.

Lemma upsert_rows (n : MmpNode.t) (rows : list MmpNode.t) (e : MmpNode.t) :
  NoDup (map node_key rows) ->
  find (node_has_key (MmpNode.id n) (MmpNode.nodeMapId n)) rows = Some e ->
  forall x, In x (upsert n rows)
            <-> x = n \/ (In x rows /\ node_key x <> node_key n).
Proof.
  induction rows as [|r rows IH]; cbn; [discriminate|].
  intros Hnd Hf x. inversion Hnd as [|? ? Hnotin Hnd']; subst.
  destruct (node_has_key _ _ r) eqn:Er.
  - apply node_has_key_true in Er. destruct Er as [Hid Hmap].
    assert (Hkr : node_key r = node_key n)
      by (unfold node_key; rewrite Hid, Hmap; reflexivity).
    cbn. split.
    + intros [<- | Hx]; [left; reflexivity|].
      right. split; [right; exact Hx|].
      intros Hk. apply Hnotin. rewrite Hkr, <- Hk. apply in_map. exact Hx.
    + intros [-> | [[<- | Hx] Hk]]; auto. congruence.
  - assert (Hkr : node_key r <> node_key n).
    { unfold node_key. intros Hk. inversion Hk as [[Hmap Hid]].
      assert (node_has_key (MmpNode.id n) (MmpNode.nodeMapId n) r = true)
        by (apply node_has_key_true; auto).
      congruence. }
    cbn. rewrite (IH Hnd' Hf x). split.
    + intros [<- | [-> | [Hx Hk]]]; auto.
    + intros [-> | [[<- | Hx] Hk]]; auto.
Qed.

Lemma upsert_length (n : MmpNode.t) (rows : list MmpNode.t) (e : MmpNode.t) :
  find (node_has_key (MmpNode.id n) (MmpNode.nodeMapId n)) rows = Some e ->
  List.length (upsert n rows) = List.length rows.
Proof.
  intros Hf. rewrite <- (length_map node_key), (upsert_keys n rows e Hf).
  apply length_map.
Qed.

Section WithAccess.
Context `{ClientAccess}.

(** X14.  [removeNode] on a node that is not stored under the map is
    fulfilled with nothing and changes no row.  On a stored node it is
    fulfilled with the removed entity, every row of that key is gone and
    every other row stays in place, and the existence probe no longer
    finds the identifier under the map. *)
Theorem removeNode_outcomes (clientNode : IMmpClientNode) (mapId : string) (w : World) :
  match find (node_has_key (client_id clientNode) mapId) (nodes w) with
  | None =>
      exists w',
        removeNode clientNode mapId w = (w', Fulfilled None)
        /\ nodes w' = nodes w /\ maps w' = maps w
  | Some e =>
      exists w',
        removeNode clientNode mapId w = (w', Fulfilled (Some (removed_entity e)))
        /\ nodes w'
           = filter (fun r => negb (node_has_key (client_id clientNode) mapId r))
                    (nodes w)
        /\ ~ stored_under w' mapId (client_id clientNode)
        /\ maps w' = maps w
        /\ exists w'',
            existsNode (Some mapId) (Some (client_id clientNode)) w'
            = (w'', Fulfilled false)
  end.
Proof.
  unfold removeNode, bind, nodes_findOne.
  destruct (find (node_has_key (client_id clientNode) mapId) (nodes w)) as [e|] eqn:Hf.
  - pose proof (find_some _ _ Hf) as [_ Hk]. apply node_has_key_true in Hk.
    destruct Hk as [Hid Hmap].
    eexists. split; [reflexivity|]. cbn [nodes_remove nodes fst with_nodes record].
    rewrite Hid, Hmap.
    assert (Hgone : ~ exists n,
               In n (filter (fun r => negb (node_has_key (client_id clientNode) mapId r))
                            (nodes w))
               /\ MmpNode.id n = client_id clientNode /\ MmpNode.nodeMapId n = mapId).
    { intros (n & Hin & Hnid & Hnmap). apply filter_In in Hin.
      destruct Hin as [_ Hneg]. apply negb_true_iff in Hneg.
      assert (node_has_key (client_id clientNode) mapId n = true)
        by (apply node_has_key_true; auto).
      congruence. }
    split; [reflexivity|]. split; [exact Hgone|]. split; [reflexivity|].
    match goal with
    | |- exists _, existsNode _ _ ?w1 = _ =>
        destruct (existsNode_run (Some mapId) (Some (client_id clientNode)) w1)
          as (w'' & b & E & _ & _ & _ & _ & Hb)
    end.
    exists w''. rewrite E. f_equal. f_equal.
    destruct b; [|reflexivity]. exfalso.
    destruct (proj1 Hb eq_refl) as (m & p & Em & Ep & Hex).
    apply truthy_Some in Em, Ep. destruct Em as [Em _], Ep as [Ep _].
    inversion Em; inversion Ep; subst. apply Hgone. exact Hex.
  - eexists. split; [reflexivity|]. cbn. auto.
Qed.

(** X15.  Removing a node right after [addNode] inserted it gives back the
    nodes table as it was before the insert. *)
Theorem addNode_then_removeNode (mapId : string) (n : MmpNode.t)
    (clientNode : IMmpClientNode) (w w1 : World) (c : MmpNode.t) :
  client_id clientNode = MmpNode.id n ->
  find (node_has_key (MmpNode.id n) mapId) (nodes w) = None ->
  addNode (Some mapId) (Some n) w = (w1, Fulfilled c) ->
  exists w2,
    removeNode clientNode mapId w1 = (w2, Fulfilled (Some (removed_entity c)))
    /\ nodes w2 = nodes w /\ maps w2 = maps w.
Proof.
  intros Hcid Hfresh Hadd.
  pose proof (addNode_outcome (Some mapId) n w) as Ha. rewrite Hadd in Ha.
  destruct Ha as (m & Em & _ & Hid & Hmap & Hm & _ & _ & Hcases).
  apply truthy_Some in Em. destruct Em as [Em _].
  assert (m = mapId) as -> by congruence.
  destruct Hcases as [[Hf _] | (_ & Hc & Happ)]; [congruence|].
  assert (Hkey : node_has_key (MmpNode.id n) mapId c = true)
    by (apply node_has_key_true; auto).
  unfold removeNode, bind, nodes_findOne. rewrite Hcid, Happ.
  rewrite (find_app_fresh _ _ c Hfresh Hkey).
  eexists. split; [reflexivity|]. cbn [nodes_remove nodes maps fst with_nodes record].
  rewrite Hid, Hmap, Happ, filter_app, (find_none_keeps_all _ _ Hfresh). cbn [filter].
  rewrite Hkey. cbn. rewrite app_nil_r. auto.
Qed.

(** X16.  [updateNode] on a node that is not stored under the map is
    rejected, without a reason, and writes nothing. *)
Theorem updateNode_missing (mapId : string) (clientNode : IMmpClientNode) (w : World) :
  find (node_has_key (client_id clientNode) mapId) (nodes w) = None ->
  exists w',
    updateNode mapId clientNode w = (w', Rejected NoReason)
    /\ nodes w' = nodes w /\ maps w' = maps w /\ dates w' = dates w.
Proof.
  intros Hf. unfold updateNode, bind, nodes_findOne. rewrite Hf.
  eexists. split; [reflexivity|]. cbn. auto.
Qed.

(** X17.  When the node that [updateNode] is about to save (the stored
    node overlaid with the mapped client node) still has the identifier of
    the client node and is filed under the given map, [updateNode] on a
    stored node replaces that one row: the saved row is that node with its
    last modification set to the current time, every other row stays, and
    the number of rows and the distinctness of the primary keys are
    kept. *)
Theorem updateNode_replaces (mapId : string) (clientNode : IMmpClientNode)
    (existing : MmpNode.t) (w : World) :
  let merged := spread existing (mapClientNodeToMmpNode clientNode (Some mapId)) in
  MmpNode.id merged = client_id clientNode ->
  MmpNode.nodeMapId merged = mapId ->
  node_keys_distinct w ->
  find (node_has_key (client_id clientNode) mapId) (nodes w) = Some existing ->
  exists w' saved,
    updateNode mapId clientNode w = (w', Fulfilled saved)
    /\ saved = with_lastModified merged (clock w)
    /\ (forall x, In x (nodes w')
                  <-> x = saved \/ (In x (nodes w) /\ node_key x <> node_key existing))
    /\ List.length (nodes w') = List.length (nodes w)
    /\ node_keys_distinct w'
    /\ maps w' = maps w.
Proof.
  cbv zeta. intros Hid Hmap Hnd Hf.
  set (merged := spread existing (mapClientNodeToMmpNode clientNode (Some mapId))) in *.
  set (saved := with_lastModified merged (clock w)).
  assert (Hf' : find (node_has_key (MmpNode.id saved) (MmpNode.nodeMapId saved))
                     (nodes w) = Some existing)
    by (subst saved; cbn; rewrite Hid, Hmap; exact Hf).
  destruct (key_in_rows saved (nodes w) existing Hf') as [Hkey _].
  unfold updateNode, bind at 1, nodes_findOne. rewrite Hf.
  unfold bind at 1, newDateNow. unfold bind, date_parameter.
  cbn [dates with_dates record]. unfold getTime. rewrite thisTimeValue_new_fresh.
  cbn [clock with_dates record]. fold merged. fold saved.
  unfold nodes_save. eexists. exists saved. split; [reflexivity|].
  cbn [nodes maps record with_nodes with_dates].
  split; [reflexivity|]. split; [|split; [|split; [|reflexivity]]].
  - intros x. rewrite (upsert_rows saved (nodes w) existing Hnd Hf' x), Hkey.
    reflexivity.
  - apply (upsert_length saved (nodes w) existing Hf').
  - unfold node_keys_distinct. cbn [nodes record with_nodes].
    rewrite (upsert_keys saved (nodes w) existing Hf'). exact Hnd.
Qed.

End WithAccess.
End NodeFacts.

Module OptionFacts.
Import Repo Service ServiceMore RepoFacts Spec SpecMore.

Lemma options_set_ids mapId o ms :
  map MmpMap.id (options_set mapId o ms) = map MmpMap.id ms.
Proof.
  unfold options_set. induction ms as [|m ms IH]; cbn; [reflexivity|].
  rewrite IH. destruct (map_has_id mapId m); reflexivity.
Qed.

Lemma options_set_find mapId o ms :
  find (map_has_id mapId) (options_set mapId o ms)
  = option_map (fun m => with_options m o) (find (map_has_id mapId) ms).
Proof.
  unfold options_set. induction ms as [|m ms IH]; cbn; [reflexivity|].
  destruct (map_has_id mapId m) eqn:E.
  - unfold map_has_id in *. cbn. rewrite E. reflexivity.
  - rewrite E. exact IH.
Qed.

Lemma options_set_absent mapId o ms :
  find (map_has_id mapId) ms = None -> options_set mapId o ms = ms.
Proof.
  unfold options_set. induction ms as [|m ms IH]; cbn; [reflexivity|].
  destruct (map_has_id mapId m); [discriminate|].
  intros E. rewrite IH by exact E. reflexivity.
Qed.

(** X18.  [updateMapOptions] is fulfilled with the stored map of that
    identifier carrying the new options, and with nothing, no row changed,
    when no map has the identifier.  Afterwards every map of that
    identifier carries the options; the identifiers of the maps table, the
    maps of other identifiers and the nodes table are as before. *)
Theorem updateMapOptions_outcomes (mapId : string) (clientOptions : CachedMapOptions)
    (w : World) :
  exists w',
    updateMapOptions mapId clientOptions w
    = (w', Fulfilled (option_map (fun m => with_options m clientOptions)
                                 (find (map_has_id mapId) (maps w))))
    /\ map MmpMap.id (maps w') = map MmpMap.id (maps w)
    /\ (forall m, In m (maps w') -> MmpMap.id m = mapId ->
                  MmpMap.options m = clientOptions)
    /\ (forall m, MmpMap.id m <> mapId -> (In m (maps w') <-> In m (maps w)))
    /\ (find (map_has_id mapId) (maps w) = None -> maps w' = maps w)
    /\ nodes w' = nodes w.
Proof.
  unfold updateMapOptions, bind, maps_updateOptions, maps_findOne.
  cbn [maps with_maps]. fold (options_set mapId clientOptions (maps w)).
  rewrite options_set_find.
  eexists. split; [reflexivity|]. cbn [maps nodes record with_maps].
  split; [apply options_set_ids|].
  split; [|split; [|split; [apply options_set_absent | reflexivity]]].
  - intros m Hin Hid. unfold options_set in Hin. apply in_map_iff in Hin.
    destruct Hin as (m0 & Hm & _).
    destruct (map_has_id mapId m0) eqn:E; subst m; [reflexivity|].
    apply map_has_id_true in Hid. congruence.
  - intros m Hid. unfold options_set. rewrite in_map_iff. split.
    + intros (m0 & Hm & Hin).
      destruct (map_has_id mapId m0) eqn:E; subst m; [|exact Hin].
      apply map_has_id_true in E. cbn in Hid. congruence.
    + intros Hin. exists m. split; [|exact Hin].
      destruct (map_has_id mapId m) eqn:E; [|reflexivity].
      apply map_has_id_true in E. congruence.
Qed.

End OptionFacts.

(* ================================================================= *)
(** ** What the rebuilding and the sweep keep *)

Module KeepFacts.
Import JSDate Repo Service RepoFacts GuardFacts InsertFacts InvariantFacts.
Import RebuildFacts RebuildMoreFacts SweepFacts SweepMoreFacts Spec SpecMore.

Lemma NoDup_keys_filter (p : MmpNode.t -> bool) (rows : list MmpNode.t) :
  NoDup (map node_key rows) -> NoDup (map node_key (filter p rows)).
Proof.
  induction rows as [|r rows IH]; cbn; intros Hnd; [constructor|].
  inversion Hnd as [|? ? Hnotin Hnd']; subst.
  destruct (p r); cbn; [|auto].
  constructor; [|auto].
  intros Hin. apply Hnotin. apply in_map_iff in Hin.
  destruct Hin as (x & Hk & Hx). apply filter_In in Hx.
  rewrite <- Hk. apply in_map. tauto.
Qed.

Section WithCollaborators.
Context `{Collaborators}.

(** X19.  [updateMap] keeps the primary keys of the nodes table distinct
    and files no row under an empty map identifier, whatever the client
    submits and however the call settles. *)
Theorem updateMap_keeps_invariants (clientMap : IMmpClientMap IMmpClientNode)
    (w : World) :
  node_keys_distinct w ->
  filed_under_maps w ->
  let w' := fst (updateMap clientMap w) in
  node_keys_distinct w' /\ filed_under_maps w'.
Proof.
  intros Hnd Hfiled. cbv zeta.
  destruct (updateMap_rows clientMap w) as (ins & _ & _ & _ & Hb).
  apply (invariants_same_nodes _ _ Hb).
  apply addNodesBatch_invariants. unfold cleared. cbn. split.
  - unfold node_keys_distinct. cbn. apply NoDup_keys_filter. exact Hnd.
  - intros n Hn. cbn in Hn. apply filter_In in Hn. apply Hfiled. tauto.
Qed.

(** X20.  The sweep keeps the identifiers of the maps table and the
    primary keys of the nodes table distinct, adds no row, and leaves every
    surviving map with exactly the nodes it owned. *)
Theorem deleteOutdatedMaps_keeps (afterDays : option Z) (w : World) :
  NoDup (map MmpMap.id (maps w)) ->
  node_keys_distinct w ->
  let w' := fst (deleteOutdatedMaps afterDays w) in
  NoDup (map MmpMap.id (maps w'))
  /\ node_keys_distinct w'
  /\ (forall m, In m (maps w') -> In m (maps w) /\ owned w' m = owned w m)
  /\ (forall n, In n (nodes w') -> In n (nodes w)).
Proof.
  intros Hids Hkeys. cbv zeta.
  destruct (sweep_in_range (match afterDays with Some d => d | None => 30 end) w)
    eqn:Hrange.
  - destruct (deleteOutdatedMaps_world afterDays w Hids Hrange)
      as (w' & count & E & Hmaps & Hnodes & _).
    cbv zeta in Hmaps, Hnodes. rewrite E. cbn [fst].
    split; [rewrite Hmaps; apply NoDup_ids_filter; exact Hids|].
    split; [unfold node_keys_distinct; rewrite Hnodes; unfold cascade;
            apply NoDup_keys_filter; exact Hkeys|].
    split.
    + intros m Hin. rewrite Hmaps in Hin. apply filter_In in Hin.
      destruct Hin as [Hin Hkept]. split; [exact Hin|].
      apply negb_true_iff in Hkept. unfold owned. rewrite Hnodes.
      apply owned_after_cascade. rewrite id_in_selected by assumption. exact Hkept.
    + intros n Hn. rewrite Hnodes in Hn. unfold cascade in Hn.
      apply filter_In in Hn. tauto.
  - destruct (deleteOutdatedMaps_rejected afterDays w Hrange)
      as (w' & E & Hmaps & Hnodes & _).
    rewrite E. cbn [fst]. unfold node_keys_distinct, owned.
    rewrite Hmaps, Hnodes. auto.
Qed.

End WithCollaborators.
End KeepFacts.

(* ================================================================= *)
(** ** More runs on the sample deployment *)

Module MoreRuns.
Import JSDate Repo Service ServiceMore Sample SampleMore.
Import Spec SpecMore RepoFacts GuardFacts InsertFacts InvariantFacts.
Import RebuildMoreFacts ReplaceFacts SweepFacts DeadlineFacts SweepMoreFacts.
Import ExportFacts NodeFacts.
#[local] Existing Instance Sample.deployment.
#[local] Existing Instance SampleMore.access.
Local Open Scope string_scope.


Lemma with_root_keys : node_keys_distinct with_root.
Proof.
  unfold node_keys_distinct. cbn. constructor; [intros []|constructor].
Defined.

Lemma with_root_filed_under : filed_under_maps with_root.
Proof. intros n [<- | []]. cbn. discriminate. Defined.

Lemma fresh_map_keys : node_keys_distinct fresh_map.
Proof. unfold node_keys_distinct. cbn. constructor. Defined.

Lemma fresh_map_filed_under : filed_under_maps fresh_map.
Proof. intros n []. Defined.

Lemma three_maps_ids : NoDup (map MmpMap.id (maps three_maps)).
Proof.
  cbn. repeat (constructor; [cbn; intuition discriminate|]). constructor.
Defined.

Lemma addNode_keeps_invariants_witness :
  node_keys_distinct (fst (addNode (Some mapA) (Some childC) with_root))
  /\ filed_under_maps (fst (addNode (Some mapA) (Some childC) with_root)).
Proof.
  pose proof (addNode_keeps_invariants (Some mapA) (Some childC) with_root
                with_root_keys with_root_filed_under) as W.
  cbv zeta in W. destruct W as (W1 & W2 & _). split; assumption.
Defined.

Lemma addNodes_keeps_invariants_witness :
  node_keys_distinct (fst (addNodes (Some mapA) [childC; rootP; rootP] fresh_map))
  /\ filed_under_maps (fst (addNodes (Some mapA) [childC; rootP; rootP] fresh_map)).
Proof.
  pose proof (addNodes_keeps_invariants (Some mapA) [childC; rootP; rootP] fresh_map
                fresh_map_keys fresh_map_filed_under) as W.
  cbv zeta in W. destruct W as (W1 & W2 & _). split; assumption.
Defined.

Lemma addNode_then_lookup_witness :
  exists w'',
    validatesNodeParentForNode (Some mapA) childC
      (fst (addNode (Some mapA) (Some rootP) fresh_map))
    = (w'', Fulfilled true).
Proof.
  apply (addNode_then_lookup (Some mapA) rootP childC fresh_map
           (fst (addNode (Some mapA) (Some rootP) fresh_map)) (stored mapA rootP)).
  - cbn. discriminate.
  - reflexivity.
  - reflexivity.
Defined.

Lemma addNodes_parents_first_witness :
  exists w' created,
    addNodes (Some mapA) [rootP; childC] fresh_map = (w', Fulfilled created)
    /\ map MmpNode.id created = ["P"; "c"]
    /\ warnings w' = [].
Proof.
  apply (addNodes_parents_first (Some mapA) mapA [] [rootP; childC] fresh_map).
  - reflexivity.
  - intros p [].
  - cbn. split; [left; reflexivity|]. split; [|exact I].
    right. right. exists "P". split; [reflexivity | left; reflexivity].
  - repeat constructor.
Defined.

Lemma deleteOutdatedMaps_twice_witness :
  exists w'',
    deleteOutdatedMaps None (fst (deleteOutdatedMaps None three_maps))
    = (w'', Fulfilled 0).
Proof.
  destruct (deleteOutdatedMaps_twice None three_maps three_maps_ids)
    as (w'' & E & _).
  exists w''. exact E.
Defined.

Lemma deleteOutdatedMaps_monotone_witness :
  In (mk_map mapB (days 1)) (maps (fst (deleteOutdatedMaps (Some 40) three_maps))).
Proof.
  apply (deleteOutdatedMaps_monotone 30 40 three_maps (mk_map mapB (days 1))
           three_maps_ids).
  - lia.
  - reflexivity.
  - vm_compute. left. reflexivity.
Defined.

Lemma getDeletedAt_agrees_with_sweep_witness :
  exists w1 r deadline,
    getDeletedAt (Some (mk_map mapA (days 99))) 30 three_maps = (w1, Fulfilled r)
    /\ thisTimeValue (dates w1) r = Some deadline
    /\ (deadline < clock three_maps
        <-> ~ In (mk_map mapA (days 99))
                 (maps (fst (deleteOutdatedMaps (Some 30) three_maps)))).
Proof.
  apply (getDeletedAt_agrees_with_sweep 30 0 three_maps (mk_map mapA (days 99))
           three_maps_ids).
  - left. reflexivity.
  - reflexivity.
  - vm_compute. discriminate.
  - vm_compute. discriminate.
  - reflexivity.
Defined.

Lemma deleteOutdatedMaps_out_of_range_witness :
  exists w',
    deleteOutdatedMaps (Some 200000000) three_maps = (w', Rejected QueryFailedError)
    /\ maps w' = maps three_maps /\ nodes w' = nodes three_maps.
Proof.
  destruct (deleteOutdatedMaps_out_of_range (Some 200000000) three_maps eq_refl)
    as (w' & E & Hmaps & Hnodes & _).
  exists w'. auto.
Defined.

(** Without the range the longer retention can delete more: the sweep
    under a number of days below an interval's is rejected and deletes
    nothing, the sweep under 0 days deletes the map. *)
Lemma deleteOutdatedMaps_rejected_keeps_more :
  In (mk_map mapB (days 1))
     (maps (fst (deleteOutdatedMaps (Some (-3000000000)) three_maps)))
  /\ ~ In (mk_map mapB (days 1))
          (maps (fst (deleteOutdatedMaps (Some 0) three_maps))).
Proof. vm_compute. split; [auto|]. intros []. Qed.

(** Without the range the deadline shown and the sweep can part: a map on
    the same table whose time plus the retention is no timestamp has the
    sweep rejected, and the map whose deadline has passed is still there. *)
Lemma deleteOutdatedMaps_rejected_past_deadline :
  let w := world [mk_map mapA (days 1); mk_map mapB pg_timestamp_end] []
                 (days 100) in
  let (w1, r) := getDeletedAt (Some (mk_map mapA (days 1))) 30 w in
  thisTimeValue (dates w1) 1%nat = Some (days 31)
  /\ days 31 < clock w
  /\ snd (deleteOutdatedMaps (Some 30) w) = Rejected QueryFailedError
  /\ In (mk_map mapA (days 1)) (maps (fst (deleteOutdatedMaps (Some 30) w))).
Proof. vm_compute. repeat split. left. reflexivity. Qed.

(** A number of days beyond an interval's: rejected on any tables. *)
Lemma deleteOutdatedMaps_interval_out_of_range :
  snd (deleteOutdatedMaps (Some 3000000000) three_maps) = Rejected QueryFailedError
  /\ snd (deleteOutdatedMaps (Some 3000000000) (world [] [] (days 100)))
     = Rejected QueryFailedError.
Proof. vm_compute. split; reflexivity. Qed.

Lemma exportMapToClient_assembles_witness :
  exists w' r found,
    exportMapToClient mapA three_maps
    = (w', Fulfilled (mapMmpMapToClient (mk_map mapA (days 99)) found r
                        deleteAfterDays))
    /\ Sorted ascending found.
Proof.
  destruct (@exportMapToClient_assembles Sample.deployment mapA (mk_map mapA (days 99)) three_maps
              ltac:(vm_compute; reflexivity) ltac:(vm_compute; reflexivity)
              ltac:(vm_compute; discriminate))
    as (w' & r & found & E & _ & Hs & _).
  exists w', r, found. split; assumption.
Defined.

Lemma calculcateDeletedAt_adds_up_witness :
  let (h1, d1) := calculcateDeletedAt 0%nat 30 [Some leap_day] in
  let (h2, d2) := calculcateDeletedAt d1 1 h1 in
  let (h3, d3) := calculcateDeletedAt 0%nat (30 + 1) [Some leap_day] in
  thisTimeValue h2 d2 = thisTimeValue h3 d3.
Proof.
  pose proof (@calculcateDeletedAt_adds_up Sample.deployment [Some leap_day] 0%nat leap_day 30 1 0
                ltac:(reflexivity) ltac:(cbn; lia) eq_refl
                ltac:(vm_compute; discriminate) ltac:(vm_compute; discriminate)) as W.
  destruct (calculcateDeletedAt 0%nat 30 [Some leap_day]) as [h1 d1].
  destruct (calculcateDeletedAt d1 1 h1) as [h2 d2].
  destruct (calculcateDeletedAt 0%nat (30 + 1) [Some leap_day]) as [h3 d3].
  exact (proj1 W).
Defined.

Lemma two_nodes_keys : node_keys_distinct two_nodes.
Proof.
  unfold node_keys_distinct. cbn.
  repeat (constructor; [cbn; intuition discriminate|]). constructor.
Defined.

Lemma two_nodes_filed_under : filed_under_maps two_nodes.
Proof.
  intros n Hn. cbn in Hn. destruct Hn as [<- | [<- | [<- | []]]]; cbn; discriminate.
Defined.

Lemma three_maps_keys : node_keys_distinct three_maps.
Proof.
  unfold node_keys_distinct. cbn.
  repeat (constructor; [cbn; intuition discriminate|]). constructor.
Defined.

Lemma updateMap_keeps_invariants_witness :
  node_keys_distinct
    (fst (updateMap {| uuid := mapA; data := [nodeC; nodeC] |} two_nodes)).
Proof.
  apply (proj1 (@KeepFacts.updateMap_keeps_invariants Sample.deployment
                  {| uuid := mapA; data := [nodeC; nodeC] |} two_nodes
                  two_nodes_keys two_nodes_filed_under)).
Defined.

Lemma deleteOutdatedMaps_keeps_witness :
  NoDup (map MmpMap.id (maps (fst (deleteOutdatedMaps None three_maps))))
  /\ node_keys_distinct (fst (deleteOutdatedMaps None three_maps)).
Proof.
  pose proof (KeepFacts.deleteOutdatedMaps_keeps None three_maps
                three_maps_ids three_maps_keys) as W.
  cbv zeta in W. destruct W as (W1 & W2 & _). split; assumption.
Defined.

Lemma addNode_then_removeNode_witness :
  exists w2,
    removeNode rootP mapA (fst (addNode (Some mapA) (Some rootP) fresh_map))
    = (w2, Fulfilled (Some (stored mapA rootP)))
    /\ nodes w2 = nodes fresh_map.
Proof.
  destruct (@addNode_then_removeNode Sample.deployment SampleMore.access mapA rootP rootP fresh_map
              (fst (addNode (Some mapA) (Some rootP) fresh_map)) (stored mapA rootP)
              eq_refl eq_refl eq_refl) as (w2 & E & Hn & _).
  exists w2. split; assumption.
Defined.

Lemma updateNode_missing_witness :
  exists w', updateNode mapA rootP fresh_map = (w', Rejected NoReason).
Proof.
  destruct (@updateNode_missing Sample.deployment SampleMore.access mapA rootP fresh_map eq_refl) as (w' & E & _).
  exists w'. exact E.
Defined.

Lemma updateNode_replaces_witness :
  exists w' saved,
    updateNode mapA detachedWithParent with_root = (w', Fulfilled saved)
    /\ MmpNode.lastModified saved = days 100
    /\ List.length (nodes w') = 1%nat.
Proof.
  destruct (@updateNode_replaces Sample.deployment SampleMore.access mapA detachedWithParent (stored mapA rootP) with_root
              eq_refl eq_refl with_root_keys eq_refl)
    as (w' & saved & E & Hs & _ & Hlen & _).
  exists w', saved. split; [exact E|]. split; [rewrite Hs; reflexivity | exact Hlen].
Defined.

End MoreRuns.
